(** * Quality fingerprinting of the transcode cache: [QualityService]

    A shallow embedding of [src/cache/quality.service.ts] together with the
    parts of the JavaScript platform the service relies on:

    - strings are sequences of UTF-16 code units ([jsstring]);
    - numbers are IEEE-754 binary64 values ([number], the [spec_float] of the
      standard library at precision 53 and maximal exponent 1024);
    - [parseInt], [Math.round], [Number::toString], [JSON.stringify],
      [Array.prototype.sort], MD5 (RFC 1321) and the scheme scanner of the
      WHATWG URL parser are written out; what the platform does beyond that
      (case mapping outside ASCII, URL parsing after the scheme) is a field of
      the class [Host], over which every statement is quantified;
    - logging and the exception of [new URL] are explicit in the monad [Eff]. *)

From Stdlib Require Import ZArith NArith PArith List String Ascii Bool Lia.
From Stdlib Require Import Floats.SpecFloat.
From Stdlib Require Import Sorting.Sorted Sorting.Permutation.
Import ListNotations.

(* ================================================================== *)
(** * JavaScript strings *)
(* ================================================================== *)

Module JSString.

(** A string is its sequence of UTF-16 code units. *)
Definition jsstring := list N.

(** The code units of an ASCII literal. *)
Definition lit (s : string) : jsstring :=
  map N_of_ascii (list_ascii_of_string s).

(** The same, an apostrophe standing for a double quote. *)
Definition litq (s : string) : jsstring :=
  map (fun c => if (c =? 39)%N then 34%N else c) (lit s).

Fixpoint eqb (s t : jsstring) : bool :=
  match s, t with
  | [], [] => true
  | c :: s', d :: t' => N.eqb c d && eqb s' t'
  | _, _ => false
  end.

(** ToBoolean on a string: only the empty string is falsy. *)
Definition truthy (s : jsstring) : bool :=
  match s with [] => false | _ :: _ => true end.

(** The relational comparison [x < y] of two strings: lexicographic on
    code units, a proper prefix being smaller. *)
Fixpoint ltb (s t : jsstring) : bool :=
  match s, t with
  | _, [] => false
  | [], _ :: _ => true
  | c :: s', d :: t' =>
      if N.ltb c d then true
      else if N.eqb c d then ltb s' t' else false
  end.

Definition is_ascii_lower (c : N) : bool := (97 <=? c)%N && (c <=? 122)%N.
Definition is_ascii_upper (c : N) : bool := (65 <=? c)%N && (c <=? 90)%N.
Definition is_ascii_alpha (c : N) : bool := is_ascii_lower c || is_ascii_upper c.
Definition is_ascii_digit (c : N) : bool := (48 <=? c)%N && (c <=? 57)%N.
Definition is_ascii (c : N) : bool := (c <? 128)%N.

Definition ascii_to_upper (c : N) : N :=
  if is_ascii_lower c then (c - 32)%N else c.
Definition ascii_to_lower (c : N) : N :=
  if is_ascii_upper c then (c + 32)%N else c.

(** Array.prototype.join on strings. *)
Fixpoint join (sep : jsstring) (parts : list jsstring) : jsstring :=
  match parts with
  | [] => []
  | [p] => p
  | p :: rest => p ++ sep ++ join sep rest
  end.

(** The decimal digits of a natural number, most significant first. *)
Fixpoint pos_digits (fuel : nat) (n : N) (acc : jsstring) : jsstring :=
  match fuel with
  | O => acc
  | S fuel' =>
      let acc' := (48 + n mod 10)%N :: acc in
      if (n / 10 =? 0)%N then acc' else pos_digits fuel' (n / 10)%N acc'
  end.

Definition decimal (n : N) : jsstring :=
  pos_digits (S (N.to_nat (N.log2 n))) n [].

End JSString.
Export JSString.

(* ================================================================== *)
(** * JavaScript numbers *)
(* ================================================================== *)

Module JSNumber.

(** The Number type: IEEE-754 binary64. *)
Definition number := spec_float.

Definition prec : Z := 53.
Definition emax : Z := 1024.

Definition NaN : number := S754_nan.
Definition add : number -> number -> number := SFadd prec emax.
Definition mul : number -> number -> number := SFmul prec emax.
Definition div : number -> number -> number := SFdiv prec emax.

(** The Number value of a mathematical integer (round to nearest, ties to
    even; [neg_zero] is the sign given to zero). *)
Definition of_Z_signed (z : Z) (neg_zero : bool) : number :=
  binary_normalize prec emax z 0 neg_zero.
Definition of_Z (z : Z) : number := of_Z_signed z false.

Definition is_nan (x : number) : bool :=
  match x with S754_nan => true | _ => false end.

Definition is_finite (x : number) : bool :=
  match x with S754_zero _ | S754_finite _ _ _ => true | _ => false end.

(** [0 <= x] as JavaScript evaluates it: false on NaN, true on both zeros. *)
Definition nonneg (x : number) : bool := SFleb (S754_zero false) x.

(** ** parseInt (ECMA-262 19.2.5, radix undefined) *)

(** StrWhiteSpaceChar: WhiteSpace and LineTerminator. *)
Definition is_white_space (c : N) : bool :=
  (c =? 9)%N || (c =? 10)%N || (c =? 11)%N || (c =? 12)%N || (c =? 13)%N ||
  (c =? 32)%N || (c =? 160)%N || (c =? 5760)%N ||
  ((8192 <=? c)%N && (c <=? 8202)%N) ||
  (c =? 8232)%N || (c =? 8233)%N || (c =? 8239)%N || (c =? 8287)%N ||
  (c =? 12288)%N || (c =? 65279)%N.

Fixpoint trim_start (s : jsstring) : jsstring :=
  match s with
  | c :: s' => if is_white_space c then trim_start s' else s
  | [] => []
  end.

(** The value of a code unit as a digit of the given radix (10 or 16). *)
Definition digit_value (radix c : N) : option N :=
  if is_ascii_digit c then Some (c - 48)%N
  else if (radix =? 16)%N && (97 <=? c)%N && (c <=? 102)%N then Some (c - 87)%N
  else if (radix =? 16)%N && (65 <=? c)%N && (c <=? 70)%N then Some (c - 55)%N
  else None.

(** Reads the longest prefix of radix digits; [None] when it is empty. *)
Fixpoint read_digits (radix : N) (s : jsstring) (acc : option N) : option N :=
  match s with
  | [] => acc
  | c :: s' =>
      match digit_value radix c with
      | Some d =>
          read_digits radix s'
            (Some (match acc with Some a => a * radix + d | None => d end)%N)
      | None => acc
      end
  end.

(** The sign and the magnitude parseInt reads, [None] where it yields NaN. *)
Definition parse_integer (s : jsstring) : option (bool * N) :=
  let s1 := trim_start s in
  let '(neg, s2) :=
    match s1 with
    | 45%N :: r => (true, r)
    | 43%N :: r => (false, r)
    | _ => (false, s1)
    end in
  let '(radix, s3) :=
    match s2 with
    | 48%N :: 120%N :: r => (16%N, r)
    | 48%N :: 88%N :: r => (16%N, r)
    | _ => (10%N, s2)
    end in
  match read_digits radix s3 None with
  | Some m => Some (neg, m)
  | None => None
  end.

(** The Number of the integer read, correctly rounded (beyond 20
    significant digits ECMA-262 also allows an approximation); a minus sign
    before zeros gives -0. *)
Definition parseInt (s : jsstring) : number :=
  match parse_integer s with
  | Some (neg, m) =>
      of_Z_signed (if neg then Z.opp (Z.of_N m) else Z.of_N m) neg
  | None => NaN
  end.

(** The mathematical integer parseInt reads. *)
Definition parsed_Z (s : jsstring) : option Z :=
  match parse_integer s with
  | Some (neg, m) => Some (if neg then Z.opp (Z.of_N m) else Z.of_N m)
  | None => None
  end.

(** ** Math.round (ECMA-262 21.3.2.28)

    The integral Number closest to [x], ties towards +infinity; the sign
    of [x] is kept on a zero result. *)
Definition MathRound (x : number) : number :=
  match x with
  | S754_finite s m e =>
      if (0 <=? e)%Z then x
      else
        let k := Z.opp e in
        let twice := (if s then Z.opp (2 * Zpos m) else 2 * Zpos m)%Z in
        of_Z_signed (Z.shiftr (twice + 2 ^ k) (k + 1)) s
  | _ => x
  end.

(** The magnitude of an integral Number, [None] on the others. *)
Definition integral_magnitude (x : number) : option Z :=
  match x with
  | S754_zero _ => Some 0%Z
  | S754_finite _ m e =>
      if (0 <=? e)%Z then Some (Zpos m * 2 ^ e)%Z
      else if (Zpos m mod 2 ^ (Z.opp e) =? 0)%Z
           then Some (Zpos m / 2 ^ (Z.opp e))%Z
           else None
  | _ => None
  end.

(** ** Number::toString (ECMA-262 6.1.6.1.20, radix 10) on integral values

    The integer [s * 10 ^ (n - k)] with [k] as small as possible whose
    Number value is [x_abs]; among two candidates the closer to [v], then
    the even one. [v] is the exact value of [x_abs]. *)
Fixpoint shortest_from (fuel : nat) (x_abs : number) (v : Z) (ndigits k : Z)
  : Z :=
  match fuel with
  | O => v
  | S fuel' =>
      let p := (10 ^ (ndigits - k))%Z in
      let lo := (v / p * p)%Z in
      let hi := (lo + p)%Z in
      let ok_lo := SFeqb (of_Z lo) x_abs in
      let ok_hi := SFeqb (of_Z hi) x_abs in
      if ok_lo && ok_hi then
        if (v - lo <? hi - v)%Z then lo
        else if (hi - v <? v - lo)%Z then hi
        else if Z.even (v / p) then lo else hi
      else if ok_lo then lo
      else if ok_hi then hi
      else shortest_from fuel' x_abs v ndigits (k + 1)%Z
  end.

Definition shortest_integer (x_abs : number) (v : Z) : Z :=
  shortest_from 17 x_abs v (Z.of_nat (List.length (decimal (Z.to_N v)))) 1.

Fixpoint strip_trailing_zeros (rev_digits : jsstring) : jsstring :=
  match rev_digits with
  | 48%N :: r => strip_trailing_zeros r
  | _ => rev_digits
  end.

(** Digits of a positive integer, in exponent notation from 10^21 on. *)
Definition integer_digits (w : Z) : jsstring :=
  let ds := decimal (Z.to_N w) in
  if (w <? 10 ^ 21)%Z then ds
  else
    let exponent := lit "e+" ++ decimal (N.of_nat (List.length ds) - 1) in
    match rev (strip_trailing_zeros (rev ds)) with
    | [] => ds
    | [d] => d :: exponent
    | d :: frac => d :: 46%N :: frac ++ exponent
    end.

(** Number::toString. Fractional values have no rendering here: the
    service only prints results of [MathRound], which are never
    fractional (lemma [MathRound_not_fractional]). *)
Definition NumberToString (x : number) : jsstring :=
  match x with
  | S754_nan => lit "NaN"
  | S754_zero _ => lit "0"
  | S754_infinity s => (if s then lit "-" else []) ++ lit "Infinity"
  | S754_finite s m e =>
      match integral_magnitude x with
      | Some v =>
          (if s then lit "-" else []) ++
          integer_digits (shortest_integer (S754_finite false m e) v)
      | None => []
      end
  end.

End JSNumber.
Export JSNumber.

(* ================================================================== *)
(** * What is left to the platform *)
(* ================================================================== *)

(** The two places where the service's result depends on platform tables
    that are not written out here. Every statement below holds for every
    [Host]. *)
Class Host := {
  (** String.prototype.toUpperCase on a string with a code unit outside
      ASCII (the Unicode case mapping). *)
  unicode_upper : jsstring -> jsstring;
  (** The WHATWG URL parser from the state reached after the scheme: given
      the scheme and the rest of the input, failure or the list of
      name/value pairs that [searchParams] holds. *)
  url_after_scheme : jsstring -> jsstring -> option (list (jsstring * jsstring))
}.

(** String.prototype.toUpperCase. *)
Definition toUpperCase `{Host} (s : jsstring) : jsstring :=
  if forallb is_ascii s then map ascii_to_upper s else unicode_upper s.

(* ================================================================== *)
(** * The quality descriptor *)
(* ================================================================== *)

(** Modelled from the spec: the [QualityInfo] interface
    ([src/cache/interfaces/quality-info.interface.ts] is not among the
    sources). Its attribute vocabulary is the one of section 3 of the
    specification, under the property names the extractor writes. *)
Inductive Attr : Set :=
  | maxVideoBitrate | videoCodec | maxWidth | maxHeight | videoLevel
  | profile | maxFramerate | videoBitDepth
  | audioCodec | audioChannels | audioBitrate | audioSampleRate
  | container | segmentContainer
  | subtitleCodec
  | audioStreamIndex | subtitleStreamIndex | audioLanguage | subtitleLanguage
  | maxAudioChannels | transcodingMaxAudioChannels | subtitleMethod
  | startTimeTicks
  | mediaSourceId | deviceId | playSessionId.

Scheme Equality for Attr.

Definition attr_name (a : Attr) : jsstring :=
  match a with
  | maxVideoBitrate => lit "maxVideoBitrate"
  | videoCodec => lit "videoCodec"
  | maxWidth => lit "maxWidth"
  | maxHeight => lit "maxHeight"
  | videoLevel => lit "videoLevel"
  | profile => lit "profile"
  | maxFramerate => lit "maxFramerate"
  | videoBitDepth => lit "videoBitDepth"
  | audioCodec => lit "audioCodec"
  | audioChannels => lit "audioChannels"
  | audioBitrate => lit "audioBitrate"
  | audioSampleRate => lit "audioSampleRate"
  | container => lit "container"
  | segmentContainer => lit "segmentContainer"
  | subtitleCodec => lit "subtitleCodec"
  | audioStreamIndex => lit "audioStreamIndex"
  | subtitleStreamIndex => lit "subtitleStreamIndex"
  | audioLanguage => lit "audioLanguage"
  | subtitleLanguage => lit "subtitleLanguage"
  | maxAudioChannels => lit "maxAudioChannels"
  | transcodingMaxAudioChannels => lit "transcodingMaxAudioChannels"
  | subtitleMethod => lit "subtitleMethod"
  | startTimeTicks => lit "startTimeTicks"
  | mediaSourceId => lit "mediaSourceId"
  | deviceId => lit "deviceId"
  | playSessionId => lit "playSessionId"
  end.

(** A descriptor is a JavaScript object: its own properties in insertion
    order, each holding a string or [undefined] ([None]). The keys of an
    object are pairwise distinct ([wf]). *)
Definition QualityInfo := list (Attr * option jsstring).

Definition keys (o : QualityInfo) : list Attr := map fst o.

Definition wf (o : QualityInfo) : Prop := NoDup (keys o).

(** [o[key]]: [undefined] for a missing property as for one holding
    [undefined]. *)
Fixpoint get (o : QualityInfo) (key : Attr) : option jsstring :=
  match o with
  | [] => None
  | (k, v) :: o' => if Attr_beq k key then v else get o' key
  end.

(** [o[key] = v]: in place for an existing property, appended otherwise. *)
Fixpoint set (o : QualityInfo) (key : Attr) (v : option jsstring)
  : QualityInfo :=
  match o with
  | [] => [(key, v)]
  | (k, w) :: o' =>
      if Attr_beq k key then (k, v) :: o' else (k, w) :: set o' key v
  end.

(** [delete o[key]]. *)
Fixpoint delete (o : QualityInfo) (key : Attr) : QualityInfo :=
  match o with
  | [] => []
  | (k, w) :: o' =>
      if Attr_beq k key then o' else (k, w) :: delete o' key
  end.

(** The value of a property used as a condition: the string when the
    property holds a non-empty string, nothing otherwise. *)
Definition truthy_value (o : QualityInfo) (key : Attr) : option jsstring :=
  match get o key with
  | Some s => if truthy s then Some s else None
  | None => None
  end.

(** The value type of [getQualityMetrics]. *)
Record QualityMetrics := {
  score : number;
  description : jsstring;
  estimatedSize : number
}.

(* ================================================================== *)
(** * The service: description, score, metrics *)
(* ================================================================== *)

(** [getQualityDescription], lines 103-147. *)
Definition getQualityDescription `{Host} (qualityInfo : QualityInfo)
  : jsstring :=
  let parts : list jsstring := [] in
  (* Resolution *)
  let parts :=
    match truthy_value qualityInfo maxWidth,
          truthy_value qualityInfo maxHeight with
    | Some w, Some h => parts ++ [w ++ lit "x" ++ h]
    | _, _ => parts
    end in
  (* Video bitrate *)
  let parts :=
    match truthy_value qualityInfo maxVideoBitrate with
    | Some b =>
        let bitrateMbps := MathRound (div (parseInt b) (of_Z 1000000)) in
        parts ++ [NumberToString bitrateMbps ++ lit "Mbps"]
    | None => parts
    end in
  (* Video codec *)
  let parts :=
    match truthy_value qualityInfo videoCodec with
    | Some c => parts ++ [toUpperCase c]
    | None => parts
    end in
  (* Audio codec and language *)
  let parts :=
    match truthy_value qualityInfo audioCodec with
    | Some c =>
        let audioPart := toUpperCase c in
        let audioPart :=
          match truthy_value qualityInfo audioLanguage with
          | Some l => audioPart ++ lit " (" ++ l ++ lit ")"
          | None => audioPart
          end in
        let audioPart :=
          match truthy_value qualityInfo audioStreamIndex with
          | Some i => audioPart ++ lit " [Track " ++ i ++ lit "]"
          | None => audioPart
          end in
        parts ++ [audioPart]
    | None => parts
    end in
  (* Subtitle info *)
  let parts :=
    match truthy_value qualityInfo subtitleStreamIndex,
          truthy_value qualityInfo subtitleLanguage with
    | None, None => parts
    | _, _ =>
        let subPart := lit "Subs" in
        let subPart :=
          match truthy_value qualityInfo subtitleLanguage with
          | Some l => subPart ++ lit " (" ++ l ++ lit ")"
          | None => subPart
          end in
        let subPart :=
          match truthy_value qualityInfo subtitleStreamIndex with
          | Some i => subPart ++ lit " [Track " ++ i ++ lit "]"
          | None => subPart
          end in
        parts ++ [subPart]
    end in
  match parts with
  | [] => lit "Unknown Quality"
  | _ :: _ => join (lit " ") parts
  end.

(** [getQualityScore], lines 159-179. *)
Definition getQualityScore (qualityInfo : QualityInfo) : number :=
  let score := of_Z 0 in
  (* Video bitrate contributes most to score *)
  let score :=
    match truthy_value qualityInfo maxVideoBitrate with
    | Some b => add score (div (parseInt b) (of_Z 1000))
    | None => score
    end in
  (* Resolution contributes to score *)
  let score :=
    match truthy_value qualityInfo maxWidth,
          truthy_value qualityInfo maxHeight with
    | Some w, Some h =>
        let pixels := mul (parseInt w) (parseInt h) in
        add score (div pixels (of_Z 1000))
    | _, _ => score
    end in
  (* Audio bitrate contributes less *)
  let score :=
    match truthy_value qualityInfo audioBitrate with
    | Some a => add score (div (parseInt a) (of_Z 10))
    | None => score
    end in
  score.

(** [getQualityMetrics], lines 184-201. *)
Definition getQualityMetrics `{Host} (qualityInfo : QualityInfo)
  : QualityMetrics :=
  let score := getQualityScore qualityInfo in
  let description := getQualityDescription qualityInfo in
  let estimatedSize := of_Z 0 in
  let estimatedSize :=
    match truthy_value qualityInfo maxVideoBitrate with
    | Some b =>
        let bitrateKbps := div (parseInt b) (of_Z 1000) in
        div (mul (mul bitrateKbps (of_Z 7200)) (of_Z 1000)) (of_Z 8)
    | None => estimatedSize
    end in
  {| score := score;
     description := description;
     estimatedSize := estimatedSize |}.

(* ================================================================== *)
(** * JSON.stringify, Array.prototype.sort, UTF-8 *)
(* ================================================================== *)

Module JSON.

Definition hex_digit (n : N) : N :=
  if (n <? 10)%N then (48 + n)%N else (87 + n)%N.

(** UnicodeEscape: a backslash, [u] and four lower-case hex digits. *)
Definition unicode_escape (c : N) : jsstring :=
  [92; 117; hex_digit (c / 4096 mod 16); hex_digit (c / 256 mod 16);
   hex_digit (c / 16 mod 16); hex_digit (c mod 16)]%N.

Definition is_lead_surrogate (c : N) : bool :=
  (55296 <=? c)%N && (c <=? 56319)%N.
Definition is_trail_surrogate (c : N) : bool :=
  (56320 <=? c)%N && (c <=? 57343)%N.

(** What QuoteJSONString appends for a code unit that is not the first
    half of a surrogate pair. *)
Definition quote_unit (c : N) : jsstring :=
  if (c =? 8)%N then [92; 98]%N
  else if (c =? 9)%N then [92; 116]%N
  else if (c =? 10)%N then [92; 110]%N
  else if (c =? 12)%N then [92; 102]%N
  else if (c =? 13)%N then [92; 114]%N
  else if (c =? 34)%N then [92; 34]%N
  else if (c =? 92)%N then [92; 92]%N
  else if (c <? 32)%N || is_lead_surrogate c || is_trail_surrogate c
       then unicode_escape c
  else [c].

(** The body of QuoteJSONString: the string is read by code points, a
    surrogate pair is copied, a lone surrogate is escaped. *)
Fixpoint quote_body (s : jsstring) : jsstring :=
  match s with
  | [] => []
  | c :: s' =>
      if is_lead_surrogate c then
        match s' with
        | d :: s'' =>
            if is_trail_surrogate d then c :: d :: quote_body s''
            else quote_unit c ++ quote_body s'
        | [] => quote_unit c
        end
      else quote_unit c ++ quote_body s'
  end.

(** QuoteJSONString (ECMA-262 25.5.2.3). *)
Definition quote (s : jsstring) : jsstring :=
  34%N :: quote_body s ++ [34%N].

(** The members of SerializeJSONObject: a property holding [undefined]
    is left out. *)
Fixpoint members (o : list (jsstring * option jsstring)) : list jsstring :=
  match o with
  | [] => []
  | (k, Some v) :: o' => (quote k ++ 58%N :: quote v) :: members o'
  | (_, None) :: o' => members o'
  end.

(** JSON.stringify of an object whose properties are strings, without
    indentation. *)
Definition stringify (o : list (jsstring * option jsstring)) : jsstring :=
  123%N :: join [44%N] (members o) ++ [125%N].

End JSON.

(** Array.prototype.sort without comparator, on property names: ascending
    in the order of [ltb], equal elements in their original order. *)
Fixpoint sort_insert (k : Attr) (sorted : list Attr) : list Attr :=
  match sorted with
  | [] => [k]
  | h :: t =>
      if ltb (attr_name h) (attr_name k) then h :: sort_insert k t
      else k :: h :: t
  end.

Definition sort (l : list Attr) : list Attr := fold_right sort_insert [] l.

(** The UTF-8 bytes of a string, as [hash.update(string)] feeds them to the
    digest: a surrogate pair is one code point, a lone surrogate becomes
    U+FFFD. *)
Fixpoint utf8 (s : jsstring) : list N :=
  let encode (c : N) : list N :=
    if (c <? 128)%N then [c]
    else if (c <? 2048)%N then [192 + c / 64; 128 + c mod 64]%N
    else if JSON.is_lead_surrogate c || JSON.is_trail_surrogate c
         then [239; 191; 189]%N
    else [224 + c / 4096; 128 + c / 64 mod 64; 128 + c mod 64]%N in
  match s with
  | [] => []
  | c :: s' =>
      if JSON.is_lead_surrogate c then
        match s' with
        | d :: s'' =>
            if JSON.is_trail_surrogate d then
              let cp := (65536 + (c - 55296) * 1024 + (d - 56320))%N in
              [240 + cp / 262144; 128 + cp / 4096 mod 64;
               128 + cp / 64 mod 64; 128 + cp mod 64]%N ++ utf8 s''
            else encode c ++ utf8 s'
        | [] => encode c
        end
      else encode c ++ utf8 s'
  end.

(* ================================================================== *)
(** * MD5 (RFC 1321) on byte sequences *)
(* ================================================================== *)

Module MD5.

Local Open Scope N_scope.

Definition w32 (x : N) : N := x mod 4294967296.
Definition not32 (x : N) : N := N.lxor x 4294967295.
Definition rotl (x n : N) : N :=
  w32 (N.lor (N.shiftl x n) (N.shiftr x (32 - n))).

(** T[i] = floor (2^32 * |sin (i + 1)|). *)
Definition T : list N :=
  [ 0xd76aa478; 0xe8c7b756; 0x242070db; 0xc1bdceee;
    0xf57c0faf; 0x4787c62a; 0xa8304613; 0xfd469501;
    0x698098d8; 0x8b44f7af; 0xffff5bb1; 0x895cd7be;
    0x6b901122; 0xfd987193; 0xa679438e; 0x49b40821;
    0xf61e2562; 0xc040b340; 0x265e5a51; 0xe9b6c7aa;
    0xd62f105d; 0x02441453; 0xd8a1e681; 0xe7d3fbc8;
    0x21e1cde6; 0xc33707d6; 0xf4d50d87; 0x455a14ed;
    0xa9e3e905; 0xfcefa3f8; 0x676f02d9; 0x8d2a4c8a;
    0xfffa3942; 0x8771f681; 0x6d9d6122; 0xfde5380c;
    0xa4beea44; 0x4bdecfa9; 0xf6bb4b60; 0xbebfbc70;
    0x289b7ec6; 0xeaa127fa; 0xd4ef3085; 0x04881d05;
    0xd9d4d039; 0xe6db99e5; 0x1fa27cf8; 0xc4ac5665;
    0xf4292244; 0x432aff97; 0xab9423a7; 0xfc93a039;
    0x655b59c3; 0x8f0ccc92; 0xffeff47d; 0x85845dd1;
    0x6fa87e4f; 0xfe2ce6e0; 0xa3014314; 0x4e0811a1;
    0xf7537e82; 0xbd3af235; 0x2ad7d2bb; 0xeb86d391 ].

Definition shifts : list N :=
  [ 7; 12; 17; 22; 7; 12; 17; 22; 7; 12; 17; 22; 7; 12; 17; 22;
    5; 9; 14; 20; 5; 9; 14; 20; 5; 9; 14; 20; 5; 9; 14; 20;
    4; 11; 16; 23; 4; 11; 16; 23; 4; 11; 16; 23; 4; 11; 16; 23;
    6; 10; 15; 21; 6; 10; 15; 21; 6; 10; 15; 21; 6; 10; 15; 21 ].

(** The message followed by the bit 1, zeros up to 56 modulo 64 bytes,
    and the length in bits on 8 bytes, low byte first. *)
Definition le_bytes (count : nat) (x : N) : list N :=
  map (fun i => N.shiftr x (8 * N.of_nat i) mod 256) (seq 0 count).

Definition pad (msg : list N) : list N :=
  let len := N.of_nat (List.length msg) in
  let zeros := N.to_nat ((119 - len mod 64) mod 64) in
  msg ++ 128 :: repeat 0 zeros ++ le_bytes 8 ((8 * len) mod 2 ^ 64).

Fixpoint le_words (fuel : nat) (bytes : list N) : list N :=
  match fuel, bytes with
  | S fuel', b0 :: b1 :: b2 :: b3 :: rest =>
      (b0 + 256 * b1 + 65536 * b2 + 16777216 * b3) :: le_words fuel' rest
  | _, _ => []
  end.

Record state := { sa : N; sb : N; sc : N; sd : N }.

Definition init : state :=
  {| sa := 0x67452301; sb := 0xefcdab89; sc := 0x98badcfe; sd := 0x10325476 |}.

(** Operation [i] of the four rounds on the block [M]. *)
Definition step (M : list N) (st : state) (i : nat) : state :=
  let '(Build_state A B C D) := st in
  let n := N.of_nat i in
  let '(F, g) :=
    if n <? 16 then (N.lor (N.land B C) (N.land (not32 B) D), n)
    else if n <? 32 then
      (N.lor (N.land D B) (N.land (not32 D) C), (5 * n + 1) mod 16)
    else if n <? 48 then (N.lxor B (N.lxor C D), (3 * n + 5) mod 16)
    else (N.lxor C (N.lor B (not32 D)), (7 * n) mod 16) in
  let F := w32 (F + A + nth i T 0 + nth (N.to_nat g) M 0) in
  {| sa := D; sb := w32 (B + rotl F (nth i shifts 0)); sc := B; sd := C |}.

Definition process_block (st : state) (block : list N) : state :=
  let M := le_words 16 block in
  let st' := fold_left (step M) (seq 0 64) st in
  {| sa := w32 (sa st + sa st'); sb := w32 (sb st + sb st');
     sc := w32 (sc st + sc st'); sd := w32 (sd st + sd st') |}.

Fixpoint process (fuel : nat) (st : state) (bytes : list N) : state :=
  match fuel, bytes with
  | S fuel', _ :: _ =>
      process fuel' (process_block st (firstn 64 bytes)) (skipn 64 bytes)
  | _, _ => st
  end.

(** The 16 bytes of the digest. *)
Definition digest (msg : list N) : list N :=
  let padded := pad msg in
  let st := process (List.length padded) init padded in
  le_bytes 4 (sa st) ++ le_bytes 4 (sb st) ++
  le_bytes 4 (sc st) ++ le_bytes 4 (sd st).

(** [digest('hex')]: two lower-case hex digits per byte. *)
Definition hex (bytes : list N) : jsstring :=
  flat_map (fun b => [JSON.hex_digit (b / 16); JSON.hex_digit (b mod 16)])
           bytes.

End MD5.

(* ================================================================== *)
(** * Effects: the logger and exceptions *)
(* ================================================================== *)

Inductive LogLevel := LogDebug | LogError.

Record LogEntry := { level : LogLevel; message : jsstring }.

(** A thrown value: an Error object with its message. *)
Record JSError := { error_message : jsstring }.

Inductive Completion (A : Type) :=
  | Normal (a : A)
  | Throw (e : JSError).
Arguments Normal {A} a.
Arguments Throw {A} e.

(** A computation: the entries it hands to the logger, in order, and how it
    completes. *)
Definition Eff (A : Type) : Type := list LogEntry * Completion A.

Definition ret {A} (a : A) : Eff A := ([], Normal a).

Definition bind {A B} (m : Eff A) (f : A -> Eff B) : Eff B :=
  match m with
  | (l1, Normal a) => let '(l2, c) := f a in (l1 ++ l2, c)
  | (l1, Throw e) => (l1, Throw e)
  end.

Definition throw {A} (e : JSError) : Eff A := ([], Throw e).

Definition try_catch {A} (m : Eff A) (handler : JSError -> Eff A) : Eff A :=
  match m with
  | (l1, Normal a) => (l1, Normal a)
  | (l1, Throw e) => let '(l2, c) := handler e in (l1 ++ l2, c)
  end.

Definition logger_debug (msg : jsstring) : Eff unit :=
  ([{| level := LogDebug; message := msg |}], Normal tt).

Definition logger_error (msg : jsstring) : Eff unit :=
  ([{| level := LogError; message := msg |}], Normal tt).

Notation "x <- m ;; k" := (bind m (fun x => k))
  (at level 61, m at next level, right associativity).
Notation "m ;;; k" := (bind m (fun _ => k))
  (at level 61, right associativity).

Definition completion {A} (m : Eff A) : Completion A := snd m.
Definition logged {A} (m : Eff A) : list LogEntry := fst m.

(** An object with its property names spelled out, as JSON.stringify reads
    it. *)
Definition named (o : QualityInfo) : list (jsstring * option jsstring) :=
  map (fun kv => (attr_name (fst kv), snd kv)) o.

(* ================================================================== *)
(** * The service: cache key and comparison *)
(* ================================================================== *)

(** The array literal of line 84. *)
Definition session_keys : list jsstring :=
  [lit "deviceId"; lit "playSessionId"; lit "mediaSourceId"].

(** Array.prototype.includes on strings. *)
Definition includes (l : list jsstring) (x : jsstring) : bool :=
  existsb (eqb x) l.

(** Lines 78-87 of [generateQualityHash]: the object that is serialized. *)
Definition sortedQuality (qualityInfo : QualityInfo) : QualityInfo :=
  let sortedKeys := sort (keys qualityInfo) in
  fold_left
    (fun sortedQuality key =>
       (* Skip session-specific parameters that don't affect quality *)
       if negb (includes session_keys (attr_name key))
       then set sortedQuality key (get qualityInfo key)
       else sortedQuality)
    sortedKeys [].

(** Line 89: the text that is hashed. *)
Definition qualityString (qualityInfo : QualityInfo) : jsstring :=
  JSON.stringify (named (sortedQuality qualityInfo)).

(** [generateQualityHash], lines 76-98. *)
Definition generateQualityHash (qualityInfo : QualityInfo) : Eff jsstring :=
  let qualityString := qualityString qualityInfo in
  let hash := firstn 12 (MD5.hex (MD5.digest (utf8 qualityString))) in
  logger_debug (lit "Generated quality hash: " ++ hash ++ lit " for "
                ++ qualityString) ;;;
  ret hash.

(** [areQualitiesEqual], lines 152-154. *)
Definition areQualitiesEqual (quality1 quality2 : QualityInfo) : Eff bool :=
  h1 <- generateQualityHash quality1 ;;
  h2 <- generateQualityHash quality2 ;;
  ret (eqb h1 h2).

(* ================================================================== *)
(** * [new URL(input)] and [searchParams] *)
(* ================================================================== *)

Module URL.

Definition is_c0_or_space (c : N) : bool := (c <=? 32)%N.
Definition is_tab_or_newline (c : N) : bool :=
  (c =? 9)%N || (c =? 10)%N || (c =? 13)%N.

Fixpoint strip_leading (s : jsstring) : jsstring :=
  match s with
  | c :: s' => if is_c0_or_space c then strip_leading s' else s
  | [] => []
  end.

(** The input as the state machine reads it: C0 controls and spaces
    removed at both ends, tabs and newlines removed throughout. *)
Definition preprocess (input : jsstring) : jsstring :=
  filter (fun c => negb (is_tab_or_newline c))
         (rev (strip_leading (rev (strip_leading input)))).

Definition is_scheme_char (c : N) : bool :=
  is_ascii_alpha c || is_ascii_digit c ||
  (c =? 43)%N || (c =? 45)%N || (c =? 46)%N.

(** Scheme state: scheme characters up to a colon. *)
Fixpoint scheme_state (s buffer : jsstring) : option (jsstring * jsstring) :=
  match s with
  | [] => None
  | c :: s' =>
      if is_scheme_char c then scheme_state s' (buffer ++ [ascii_to_lower c])
      else if (c =? 58)%N then Some (buffer, s')
      else None
  end.

(** Scheme start state: a scheme begins with an ASCII letter. The result
    is the lower-cased scheme and what follows the colon, [None] when the
    machine falls back to the no-scheme state. *)
Definition scan_scheme (s : jsstring) : option (jsstring * jsstring) :=
  match s with
  | c :: s' =>
      if is_ascii_alpha c then scheme_state s' [ascii_to_lower c] else None
  | [] => None
  end.

(** The basic URL parser without base URL, as far as the service looks at
    its result: [None] is failure, otherwise the [searchParams] list. In
    the no-scheme state the absence of a base URL is a failure. *)
Definition parse `{Host} (input : jsstring)
  : option (list (jsstring * jsstring)) :=
  match scan_scheme (preprocess input) with
  | Some (scheme, rest) => url_after_scheme scheme rest
  | None => None
  end.

(** [searchParams.get(name)]: the value of the first pair of that name,
    [null] ([None]) when there is none. *)
Fixpoint get (params : list (jsstring * jsstring)) (name : jsstring)
  : option jsstring :=
  match params with
  | [] => None
  | (n, v) :: params' => if eqb n name then Some v else get params' name
  end.

End URL.

(** [new URL(input)]: throws a TypeError when parsing fails. *)
Definition new_URL `{Host} (input : jsstring)
  : Eff (list (jsstring * jsstring)) :=
  match URL.parse input with
  | Some params => ret params
  | None => throw {| error_message := lit "Invalid URL" |}
  end.

(** [a || b] on values that are a string, [null] or [undefined] (the last
    two both [None]). *)
Definition or_ (a b : option jsstring) : option jsstring :=
  match a with
  | Some s => if truthy s then a else b
  | None => b
  end.
Notation "a ||| b" := (or_ a b) (at level 50, left associativity).

Definition undefined : option jsstring := None.

(* ================================================================== *)
(** * The service: extraction *)
(* ================================================================== *)

(** Lines 17-56: the object literal. *)
Local Open Scope string_scope.
Definition qualityInfo_literal (params : list (jsstring * jsstring))
  : QualityInfo :=
  let get := fun name => URL.get params (lit name) in
  [ (* Video quality parameters (try both PascalCase and camelCase) *)
    (maxVideoBitrate, get "maxVideoBitrate" ||| get "MaxVideoBitrate" ||| undefined);
    (videoCodec, get "videoCodec" ||| get "VideoCodec" ||| undefined);
    (maxWidth, get "maxWidth" ||| get "MaxWidth" ||| undefined);
    (maxHeight, get "maxHeight" ||| get "MaxHeight" ||| undefined);
    (videoLevel, get "videoLevel" ||| get "VideoLevel" ||| undefined);
    (profile, get "profile" ||| get "Profile" ||| undefined);
    (maxFramerate, get "maxFramerate" ||| get "MaxFramerate" ||| undefined);
    (videoBitDepth, get "videoBitDepth" ||| get "VideoBitDepth" ||| undefined);
    (* Audio quality parameters *)
    (audioCodec, get "audioCodec" ||| get "AudioCodec" ||| undefined);
    (audioChannels, get "audioChannels" ||| get "AudioChannels" ||| undefined);
    (audioBitrate, get "audioBitrate" ||| get "AudioBitrate" ||| undefined);
    (audioSampleRate, get "audioSampleRate" ||| get "AudioSampleRate" ||| undefined);
    (* Container parameters *)
    (container, get "container" ||| get "Container" ||| undefined);
    (segmentContainer, get "segmentContainer" ||| get "SegmentContainer" ||| undefined);
    (* Subtitle parameters *)
    (subtitleCodec, get "subtitleCodec" ||| get "SubtitleCodec" ||| undefined);
    (* Audio/Subtitle stream selection parameters *)
    (audioStreamIndex, get "audioStreamIndex" ||| undefined);
    (subtitleStreamIndex, get "subtitleStreamIndex" ||| undefined);
    (audioLanguage, get "audioLanguage" ||| undefined);
    (subtitleLanguage, get "subtitleLanguage" ||| undefined);
    (maxAudioChannels, get "maxAudioChannels" ||| undefined);
    (transcodingMaxAudioChannels, get "transcodingMaxAudioChannels" ||| undefined);
    (subtitleMethod, get "subtitleMethod" ||| undefined);
    (startTimeTicks, get "startTimeTicks" ||| undefined);
    (* Session-specific (will be excluded from hash) *)
    (mediaSourceId, get "MediaSourceId" ||| undefined);
    (deviceId, get "DeviceId" ||| undefined);
    (playSessionId, get "PlaySessionId" ||| undefined) ].
Local Close Scope string_scope.

(** Lines 59-63: remove undefined values. *)
Definition remove_undefined (qualityInfo : QualityInfo) : QualityInfo :=
  fold_left
    (fun qualityInfo key =>
       match get qualityInfo key with
       | None => delete qualityInfo key
       | Some _ => qualityInfo
       end)
    (keys qualityInfo) qualityInfo.

(** [extractQualityFromUrl], lines 12-71. *)
Definition extractQualityFromUrl `{Host} (url : jsstring) : Eff QualityInfo :=
  try_catch
    (params <- new_URL url ;;
     let qualityInfo := qualityInfo_literal params in
     let qualityInfo := remove_undefined qualityInfo in
     logger_debug (lit "Extracted quality info: "
                   ++ JSON.stringify (named qualityInfo)) ;;;
     ret qualityInfo)
    (fun error =>
       logger_error (lit "Error extracting quality from URL: "
                     ++ error_message error) ;;;
       ret []).

(** A host for running the model on simple URLs: after the scheme it accepts
    [//authority/path?query], splits the query at [&] and [=] without
    decoding, and leaves non-ASCII case alone. It is one host among all; no
    statement below is about it in particular. *)
Module SampleHost.

Fixpoint after_question (s : jsstring) : jsstring :=
  match s with
  | [] => []
  | c :: s' => if (c =? 63)%N then s' else after_question s'
  end.

(** Splits at the first occurrence of [sep]. *)
Fixpoint split_once (sep : N) (s : jsstring) : jsstring * option jsstring :=
  match s with
  | [] => ([], None)
  | c :: s' =>
      if (c =? sep)%N then ([], Some s')
      else let '(a, b) := split_once sep s' in (c :: a, b)
  end.

Fixpoint split_all (fuel : nat) (sep : N) (s : jsstring) : list jsstring :=
  match fuel with
  | O => [s]
  | S fuel' =>
      match split_once sep s with
      | (a, Some b) => a :: split_all fuel' sep b
      | (a, None) => [a]
      end
  end.

Definition pairs (query : jsstring) : list (jsstring * jsstring) :=
  map (fun item =>
         match split_once 61 item with
         | (n, Some v) => (n, v)
         | (n, None) => (n, [])
         end)
      (filter truthy (split_all (List.length query) 38 query)).

Definition host : Host :=
  {| unicode_upper := fun s => s;
     url_after_scheme := fun scheme rest =>
       match rest with
       | 47%N :: 47%N :: _ :: _ => Some (pairs (after_question rest))
       | _ => None
       end |}.

End SampleHost.

(* ================================================================== *)
(** * The statements of the specification *)
(* ================================================================== *)

(** ** Sample data *)

(** The descriptor of the scenario of section 8 of the specification. *)
Definition scenario : QualityInfo :=
  [ (maxVideoBitrate, Some (lit "8000000"));
    (videoCodec, Some (lit "h264"));
    (maxWidth, Some (lit "1920"));
    (maxHeight, Some (lit "1080"));
    (audioCodec, Some (lit "aac"));
    (audioStreamIndex, Some (lit "2"));
    (audioLanguage, Some (lit "eng"));
    (deviceId, Some (lit "abc123")) ].

(** A request URL carrying the scenario, for the sample host. *)
Definition scenario_url : jsstring :=
  lit "http://media/videos/1/master.m3u8?maxVideoBitrate=8000000&maxWidth=1920&maxHeight=1080&videoCodec=h264&audioCodec=aac&audioLanguage=eng&audioStreamIndex=2&DeviceId=abc123".

(** ** Scoring *)

(** The attributes the score and the metrics parse as integers. *)
Definition numeric_attrs : list Attr :=
  [maxVideoBitrate; maxWidth; maxHeight; audioBitrate].

(** "Parses as an integer": parseInt reads at least one digit. *)
Definition parses_as_integers (d : QualityInfo) : Prop :=
  forall a s, In a numeric_attrs -> get d a = Some s -> parsed_Z s <> None.

(** The string reads as an integer without minus sign whose Number value
    is finite. *)
Definition reads_natural (s : jsstring) : Prop :=
  (exists m, parse_integer s = Some (false, m)) /\
  is_finite (parseInt s) = true.

Definition numeric_attrs_natural (d : QualityInfo) : Prop :=
  forall a s, In a numeric_attrs -> get d a = Some s -> reads_natural s.

(** The three terms of the formula of section 4.4, each 0 when its source
    attribute is absent. *)
Definition term_bitrate (d : QualityInfo) : number :=
  match get d maxVideoBitrate with
  | Some b => div (parseInt b) (of_Z 1000)
  | None => of_Z 0
  end.

Definition term_pixels (d : QualityInfo) : number :=
  match get d maxWidth, get d maxHeight with
  | Some w, Some h => div (mul (parseInt w) (parseInt h)) (of_Z 1000)
  | _, _ => of_Z 0
  end.

Definition term_audio (d : QualityInfo) : number :=
  match get d audioBitrate with
  | Some a => div (parseInt a) (of_Z 10)
  | None => of_Z 0
  end.

Definition score_formula (d : QualityInfo) : number :=
  add (add (term_bitrate d) (term_pixels d)) (term_audio d).

(** The same Number, the sign of a zero apart (SameValueZero of
    ECMA-262 7.2.11: for a score, [===] extended to NaN). *)
Definition is_zero (x : number) : bool :=
  match x with S754_zero _ => true | _ => false end.

Definition same_value_zero (x y : number) : Prop :=
  x = y \/ (is_zero x = true /\ is_zero y = true).

(** Zero substitution as section 4.4 words it: an attribute that fails to
    parse contributes 0, so the score is the one of the descriptor without
    that attribute. *)
Definition zero_substitution : Prop :=
  forall d a s,
    In a numeric_attrs -> get d a = Some s -> parseInt s = NaN ->
    getQualityScore d = getQualityScore (delete d a).

(** The size estimate of section 4.5 for a bitrate. *)
Definition size_formula (bitrate : number) : number :=
  div (mul (mul (div bitrate (of_Z 1000)) (of_Z 7200)) (of_Z 1000)) (of_Z 8).

(** The sign bit is clear and the value is a number: +0, a positive finite
    value or +Infinity. *)
Definition sign_clear (x : number) : bool :=
  match x with
  | S754_zero false | S754_infinity false | S754_finite false _ _ => true
  | _ => false
  end.

(** ** Cache key and comparison *)

(** The key [generateQualityHash] returns. *)
Definition cacheKey (d : QualityInfo) : jsstring :=
  firstn 12 (MD5.hex (MD5.digest (utf8 (qualityString d)))).

(** ** Extraction *)

(** The own property of an object: [None] when there is no entry for the
    key, [Some v] when the entry holds [v]. *)
Fixpoint own_property (o : QualityInfo) (key : Attr)
  : option (option jsstring) :=
  match o with
  | [] => None
  | (k, v) :: o' => if Attr_beq k key then Some v else own_property o' key
  end.

(** The attribute groups of section 3. *)
Inductive AttrGroup := DualSpelling | StreamSelection | Session.

Definition group (a : Attr) : AttrGroup :=
  match a with
  | maxVideoBitrate | videoCodec | maxWidth | maxHeight | videoLevel
  | profile | maxFramerate | videoBitDepth
  | audioCodec | audioChannels | audioBitrate | audioSampleRate
  | container | segmentContainer | subtitleCodec => DualSpelling
  | audioStreamIndex | subtitleStreamIndex | audioLanguage
  | subtitleLanguage | maxAudioChannels | transcodingMaxAudioChannels
  | subtitleMethod | startTimeTicks => StreamSelection
  | mediaSourceId | deviceId | playSessionId => Session
  end.

(** The capitalized spelling of a lower-camel name. *)
Definition capitalize (s : jsstring) : jsstring :=
  match s with
  | c :: r => ascii_to_upper c :: r
  | [] => []
  end.

(** Section 4.1: the accepted query-parameter spellings of an attribute, in
    priority order. *)
Definition accepted_spellings (a : Attr) : list jsstring :=
  match group a with
  | DualSpelling => [attr_name a; capitalize (attr_name a)]
  | StreamSelection => [attr_name a]
  | Session => [capitalize (attr_name a)]
  end.

(** "First non-empty match wins". *)
Fixpoint first_non_empty (params : list (jsstring * jsstring))
  (names : list jsstring) : option jsstring :=
  match names with
  | [] => None
  | n :: names' =>
      match URL.get params n with
      | Some (c :: v) => Some (c :: v)
      | _ => first_non_empty params names'
      end
  end.

(** What section 4.1 asks of the entry of an attribute. *)
Definition expected_entry (params : list (jsstring * jsstring)) (a : Attr)
  : option (option jsstring) :=
  option_map Some (first_non_empty params (accepted_spellings a)).

(** The log of a failed extraction. *)
Definition invalid_url_log : list LogEntry :=
  [{| level := LogError;
      message := lit "Error extracting quality from URL: Invalid URL" |}].

(** Pairwise distinct keys, decided. *)
Fixpoint distinct (l : list Attr) : bool :=
  match l with
  | [] => true
  | a :: l' => negb (existsb (Attr_beq a) l') && distinct l'
  end.

Definition defined (kv : Attr * option jsstring) : bool :=
  match snd kv with Some _ => true | None => false end.

(** ** Description *)

(** Section 4.5 in its own words: the ordered list of segments, each
    included when its source attributes are present, joined by single
    spaces. [present] is the reading of "present": the value an attribute
    contributes, if any. *)
Section DescriptionSpec.

Context `{Host}.
Variable present : QualityInfo -> Attr -> option jsstring.

Definition optional (opening : jsstring) (v : option jsstring)
  (closing : jsstring) : jsstring :=
  match v with
  | Some s => opening ++ s ++ closing
  | None => []
  end.

(** The optional [ (language)] and [ [Track index]]. *)
Definition suffixes (d : QualityInfo) (language index : Attr) : jsstring :=
  optional (lit " (") (present d language) (lit ")") ++
  optional (lit " [Track ") (present d index) (lit "]").

Definition resolution_segment (d : QualityInfo) : list jsstring :=
  match present d maxWidth, present d maxHeight with
  | Some w, Some h => [w ++ lit "x" ++ h]
  | _, _ => []
  end.

(** Bits per second divided by 1,000,000 and rounded to the nearest
    integer, as JavaScript prints the result. *)
Definition whole_mbps (bitrate : jsstring) : jsstring :=
  NumberToString (MathRound (div (parseInt bitrate) (of_Z 1000000))).

Definition bitrate_segment (d : QualityInfo) : list jsstring :=
  match present d maxVideoBitrate with
  | Some b => [whole_mbps b ++ lit "Mbps"]
  | None => []
  end.

Definition video_codec_segment (d : QualityInfo) : list jsstring :=
  match present d videoCodec with
  | Some c => [toUpperCase c]
  | None => []
  end.

Definition audio_segment (d : QualityInfo) : list jsstring :=
  match present d audioCodec with
  | Some c => [toUpperCase c ++ suffixes d audioLanguage audioStreamIndex]
  | None => []
  end.

Definition subtitle_segment (d : QualityInfo) : list jsstring :=
  match present d subtitleLanguage, present d subtitleStreamIndex with
  | None, None => []
  | _, _ => [lit "Subs" ++ suffixes d subtitleLanguage subtitleStreamIndex]
  end.

Definition segments (d : QualityInfo) : list jsstring :=
  resolution_segment d ++ bitrate_segment d ++ video_codec_segment d ++
  audio_segment d ++ subtitle_segment d.

Definition description_of (d : QualityInfo) : jsstring :=
  match segments d with
  | [] => lit "Unknown Quality"
  | _ :: _ => join (lit " ") (segments d)
  end.

End DescriptionSpec.

(** The descriptors of section 3 ("no null/empty placeholders"): no
    attribute holds the empty string. *)
Definition values_non_empty (d : QualityInfo) : Prop :=
  forall a s, get d a = Some s -> truthy s = true.


(** ** Canonical form *)

(** The descriptors agree on every attribute except the three session
    fields. *)
Definition agree_outside_session (d1 d2 : QualityInfo) : Prop :=
  forall a, group a <> Session -> get d1 a = get d2 a.

(** A lower-case hexadecimal digit. *)
Definition is_hex_lower (c : N) : bool :=
  is_ascii_digit c || ((97 <=? c)%N && (c <=? 102)%N).

(** The position of an attribute when the 26 names are sorted. *)
Definition rank (a : Attr) : N :=
  match a with
  | audioBitrate => 0 | audioChannels => 1 | audioCodec => 2
  | audioLanguage => 3 | audioSampleRate => 4 | audioStreamIndex => 5
  | container => 6 | deviceId => 7 | maxAudioChannels => 8
  | maxFramerate => 9 | maxHeight => 10 | maxVideoBitrate => 11
  | maxWidth => 12 | mediaSourceId => 13 | playSessionId => 14
  | profile => 15 | segmentContainer => 16 | startTimeTicks => 17
  | subtitleCodec => 18 | subtitleLanguage => 19 | subtitleMethod => 20
  | subtitleStreamIndex => 21 | transcodingMaxAudioChannels => 22
  | videoBitDepth => 23 | videoCodec => 24 | videoLevel => 25
  end%N.

Definition all_attrs : list Attr :=
  [ maxVideoBitrate; videoCodec; maxWidth; maxHeight; videoLevel; profile;
    maxFramerate; videoBitDepth; audioCodec; audioChannels; audioBitrate;
    audioSampleRate; container; segmentContainer; subtitleCodec;
    audioStreamIndex; subtitleStreamIndex; audioLanguage; subtitleLanguage;
    maxAudioChannels; transcodingMaxAudioChannels; subtitleMethod;
    startTimeTicks; mediaSourceId; deviceId; playSessionId ].

Definition ascending (l : list Attr) : Prop :=
  StronglySorted (fun a b => (rank a < rank b)%N) l.

(** The test of line 84. *)
Definition hashed (key : Attr) : bool :=
  negb (includes session_keys (attr_name key)).

(** The name/value pairs that are serialized: the attributes that hold a
    string, session fields left out, by ascending name. *)
Definition pairs_of (d : QualityInfo) (l : list Attr)
  : list (Attr * jsstring) :=
  flat_map (fun a => match get d a with
                     | Some v => [(a, v)]
                     | None => []
                     end) l.

Definition canonical_pairs (d : QualityInfo) : list (Attr * jsstring) :=
  pairs_of d (filter hashed (sort all_attrs)).

Definition member_text (kv : Attr * jsstring) : jsstring :=
  JSON.quote (attr_name (fst kv)) ++ 58%N :: JSON.quote (snd kv).

(** ** Reading a serialization back

    A reader for the text [JSON.quote] writes; it is the inverse that shows
    the serialization to be injective. *)

Definition unhex (c : N) : option N :=
  if is_ascii_digit c then Some (c - 48)%N
  else if (97 <=? c)%N && (c <=? 102)%N then Some (c - 87)%N
  else None.

Definition unescape (e : N) : option N :=
  if (e =? 34)%N then Some 34%N
  else if (e =? 92)%N then Some 92%N
  else if (e =? 98)%N then Some 8%N
  else if (e =? 102)%N then Some 12%N
  else if (e =? 110)%N then Some 10%N
  else if (e =? 114)%N then Some 13%N
  else if (e =? 116)%N then Some 9%N
  else None.

Definition prepend (c : N) (r : option (jsstring * jsstring))
  : option (jsstring * jsstring) :=
  match r with
  | Some (t, rest) => Some (c :: t, rest)
  | None => None
  end.

(** Reads up to the closing quote: the string and what follows the quote. *)
Fixpoint unquote_body (s : jsstring) : option (jsstring * jsstring) :=
  match s with
  | [] => None
  | c :: s1 =>
      if (c =? 34)%N then Some ([], s1)
      else if (c =? 92)%N then
        match s1 with
        | [] => None
        | e :: s2 =>
            if (e =? 117)%N then
              match s2 with
              | h1 :: h2 :: h3 :: h4 :: s3 =>
                  match unhex h1, unhex h2, unhex h3, unhex h4 with
                  | Some a, Some b, Some c', Some d =>
                      prepend (4096 * a + 256 * b + 16 * c' + d)%N
                              (unquote_body s3)
                  | _, _, _, _ => None
                  end
              | _ => None
              end
            else
              match unescape e with
              | Some x => prepend x (unquote_body s2)
              | None => None
              end
        end
      else prepend c (unquote_body s1)
  end.

(** Reads a member: a quoted name, a colon, a quoted value. *)
Definition read_member (s : jsstring)
  : option ((jsstring * jsstring) * jsstring) :=
  match s with
  | q :: s1 =>
      if (q =? 34)%N then
        match unquote_body s1 with
        | Some (k, colon :: q' :: s2) =>
            if (colon =? 58)%N && (q' =? 34)%N then
              match unquote_body s2 with
              | Some (v, rest) => Some ((k, v), rest)
              | None => None
              end
            else None
        | _ => None
        end
      else None
  | [] => None
  end.

(** A URL for the sample host, and its search parameters. *)
Definition sample_url : jsstring :=
  lit "http://media/v?MaxWidth=640&maxWidth=&audioLanguage=eng&deviceId=x&PlaySessionId=p1".

Definition sample_params : list (jsstring * jsstring) :=
  [ (lit "MaxWidth", lit "640"); (lit "maxWidth", []);
    (lit "audioLanguage", lit "eng"); (lit "deviceId", lit "x");
    (lit "PlaySessionId", lit "p1") ].

(** Two descriptors that differ in the video bitrate. *)
Definition bitrate_22227024 : QualityInfo :=
  [(maxVideoBitrate, Some (lit "22227024"))].

Definition bitrate_28262813 : QualityInfo :=
  [(maxVideoBitrate, Some (lit "28262813"))].

(** The same attributes populated in two orders, with different session
    fields. *)
Definition scenario_reordered : QualityInfo :=
  [ (playSessionId, Some (lit "s-77"));
    (audioLanguage, Some (lit "eng"));
    (audioStreamIndex, Some (lit "2"));
    (audioCodec, Some (lit "aac"));
    (maxHeight, Some (lit "1080"));
    (maxWidth, Some (lit "1920"));
    (videoCodec, Some (lit "h264"));
    (maxVideoBitrate, Some (lit "8000000")) ].

(** The value is not a fraction: NaN, an infinity, a zero or an integral
    finite value. *)
Definition not_fractional (x : number) : Prop :=
  match x with
  | S754_finite _ _ _ => integral_magnitude x <> None
  | _ => True
  end.

(** ** Further properties of the service *)

(** The property holds a string. *)
Definition holds_string (o : QualityInfo) (a : Attr) : bool :=
  match get o a with Some _ => true | None => false end.

(** Every parameter name the extractor asks for, lines 19-55. *)
Definition recognized_names : list jsstring :=
  flat_map accepted_spellings all_attrs.

(** The attributes the description, the score and the size estimate read. *)
Definition metrics_attrs : list Attr :=
  [ maxWidth; maxHeight; maxVideoBitrate; videoCodec; audioCodec;
    audioLanguage; audioStreamIndex; subtitleStreamIndex; subtitleLanguage;
    audioBitrate ].

(** The key of the empty descriptor: the first 12 digits of the MD5 digest
    of the two characters of an empty JSON object. *)
Definition empty_key : jsstring := lit "99914b932bd3".

Definition empty_metrics : QualityMetrics :=
  {| score := of_Z 0;
     description := lit "Unknown Quality";
     estimatedSize := of_Z 0 |}.

(** The names are in ascending order of [ltb]. *)
Definition names_ascending (l : list Attr) : Prop :=
  StronglySorted (fun a b => ltb (attr_name a) (attr_name b) = true) l.

(** Sample inputs: the sample URL with a parameter the extractor does not
    know and a repeated one, and the scenario with other session fields. *)
Definition sample_url_noisy : jsstring :=
  lit "http://media/v?foo=1&MaxWidth=640&maxWidth=&audioLanguage=eng&deviceId=x&PlaySessionId=p1&MaxWidth=9".

Definition sample_params_noisy : list (jsstring * jsstring) :=
  [ (lit "foo", lit "1"); (lit "MaxWidth", lit "640"); (lit "maxWidth", []);
    (lit "audioLanguage", lit "eng"); (lit "deviceId", lit "x");
    (lit "PlaySessionId", lit "p1"); (lit "MaxWidth", lit "9") ].

Definition scenario_url_other_session : jsstring :=
  lit "http://media/videos/1/master.m3u8?maxVideoBitrate=8000000&maxWidth=1920&maxHeight=1080&videoCodec=h264&audioCodec=aac&audioLanguage=eng&audioStreamIndex=2&DeviceId=tv-9&PlaySessionId=s-4".

Definition scenario_params : list (jsstring * jsstring) :=
  [ (lit "maxVideoBitrate", lit "8000000"); (lit "maxWidth", lit "1920");
    (lit "maxHeight", lit "1080"); (lit "videoCodec", lit "h264");
    (lit "audioCodec", lit "aac"); (lit "audioLanguage", lit "eng");
    (lit "audioStreamIndex", lit "2"); (lit "DeviceId", lit "abc123") ].

Definition scenario_params_other_session : list (jsstring * jsstring) :=
  [ (lit "maxVideoBitrate", lit "8000000"); (lit "maxWidth", lit "1920");
    (lit "maxHeight", lit "1080"); (lit "videoCodec", lit "h264");
    (lit "audioCodec", lit "aac"); (lit "audioLanguage", lit "eng");
    (lit "audioStreamIndex", lit "2"); (lit "DeviceId", lit "tv-9");
    (lit "PlaySessionId", lit "s-4") ].

Definition scenario_other_session : QualityInfo :=
  [ (maxVideoBitrate, Some (lit "8000000"));
    (videoCodec, Some (lit "h264"));
    (maxWidth, Some (lit "1920"));
    (maxHeight, Some (lit "1080"));
    (audioCodec, Some (lit "aac"));
    (audioStreamIndex, Some (lit "2"));
    (audioLanguage, Some (lit "eng"));
    (deviceId, Some (lit "tv-9"));
    (playSessionId, Some (lit "s-4")) ].

(** A URL that parses and carries only a session field and a parameter the
    extractor does not know. *)
Definition session_only_url : jsstring :=
  lit "http://media/v?DeviceId=abc123&quality=high".

Definition session_only_params : list (jsstring * jsstring) :=
  [ (lit "DeviceId", lit "abc123"); (lit "quality", lit "high") ].

(** An object as the literal of lines 17-56 leaves it, before the cleanup. *)
Definition with_undefined : QualityInfo :=
  [ (maxWidth, Some (lit "640")); (maxHeight, None);
    (audioCodec, Some (lit "aac")); (deviceId, None) ].

(* ================================================================== *)
(** * Checks of the model on concrete inputs *)
(* ================================================================== *)

Example parseInt_8000000 :
  parseInt (lit "8000000") = S754_finite false 8589934592000000 (-30).
Proof. reflexivity. Qed.

Example parseInt_abc : parseInt (lit "abc") = NaN.
Proof. reflexivity. Qed.

Example parseInt_prefix : parseInt (lit "  -12px") = of_Z (-12).
Proof. reflexivity. Qed.

Example parseInt_hex : parseInt (lit "0x1F") = of_Z 31.
Proof. reflexivity. Qed.

Example round_8 :
  NumberToString (MathRound (div (parseInt (lit "8000000")) (of_Z 1000000)))
  = lit "8".
Proof. reflexivity. Qed.

Example round_half_up :
  NumberToString (MathRound (div (parseInt (lit "2500000")) (of_Z 1000000)))
  = lit "3".
Proof. reflexivity. Qed.

Example round_negative_half :
  MathRound (div (parseInt (lit "-2500000")) (of_Z 1000000)) = of_Z (-2).
Proof. reflexivity. Qed.

Example round_to_negative_zero :
  MathRound (div (parseInt (lit "-400000")) (of_Z 1000000)) = S754_zero true.
Proof. reflexivity. Qed.

Example toString_2_pow_60 :
  NumberToString (of_Z (2 ^ 60)) = lit "1152921504606847000".
Proof. vm_compute. reflexivity. Qed.

Example toString_1e21 :
  NumberToString (of_Z (10 ^ 21)) = lit "1e+21".
Proof. vm_compute. reflexivity. Qed.

Example toString_2_pow_70 :
  NumberToString (of_Z (2 ^ 70)) = lit "1.1805916207174113e+21".
Proof. vm_compute. reflexivity. Qed.

Example toString_safe :
  NumberToString (of_Z (-9007199254740991)) = lit "-9007199254740991".
Proof. vm_compute. reflexivity. Qed.

Example scenario_description `{Host} :
  getQualityDescription scenario = lit "1920x1080 8Mbps H264 AAC (eng) [Track 2]".
Proof. reflexivity. Qed.

Example scenario_score :
  getQualityScore scenario = div (of_Z 100736) (of_Z 10).
Proof. vm_compute. reflexivity. Qed.

Example md5_empty :
  MD5.hex (MD5.digest []) = lit "d41d8cd98f00b204e9800998ecf8427e".
Proof. vm_compute. reflexivity. Qed.

Example md5_abc :
  MD5.hex (MD5.digest (utf8 (lit "abc"))) = lit "900150983cd24fb0d6963f7d28e17f72".
Proof. vm_compute. reflexivity. Qed.

Example md5_two_blocks :
  MD5.hex (MD5.digest (utf8 (lit
    "12345678901234567890123456789012345678901234567890123456789012345678901234567890")))
  = lit "57edf4a22be3c955ac49da2e2107b67a".
Proof. vm_compute. reflexivity. Qed.

Example scenario_qualityString :
  qualityString scenario =
  litq "{'audioCodec':'aac','audioLanguage':'eng','audioStreamIndex':'2','maxHeight':'1080','maxVideoBitrate':'8000000','maxWidth':'1920','videoCodec':'h264'}".
Proof. vm_compute. reflexivity. Qed.

Example scenario_hash :
  completion (generateQualityHash scenario) = Normal (lit "3f9d4e7b3a62").
Proof. vm_compute. reflexivity. Qed.

Example quote_escapes :
  JSON.quote (lit "a" ++ [34; 92; 10; 1; 55357; 56832; 56832; 233]%N ++ lit "z")
  = [34; 97; 92; 34; 92; 92; 92; 110] %N ++ lit "\u0001"
    ++ [55357; 56832]%N ++ lit "\ude00" ++ [233; 122; 34]%N.
Proof. vm_compute. reflexivity. Qed.

Example scenario_extract :
  completion (@extractQualityFromUrl SampleHost.host scenario_url)
  = Normal [ (maxVideoBitrate, Some (lit "8000000"));
             (videoCodec, Some (lit "h264"));
             (maxWidth, Some (lit "1920"));
             (maxHeight, Some (lit "1080"));
             (audioCodec, Some (lit "aac"));
             (audioStreamIndex, Some (lit "2"));
             (audioLanguage, Some (lit "eng"));
             (deviceId, Some (lit "abc123")) ].
Proof. vm_compute. reflexivity. Qed.

(* ================================================================== *)
(** * Facts about binary64 arithmetic *)
(* ================================================================== *)

Lemma add_nan_l (y : number) : add NaN y = NaN.
Proof. reflexivity. Qed.

Lemma add_nan_r (x : number) : add x NaN = NaN.
Proof. destruct x as [[]|[]| |[]]; reflexivity. Qed.

Lemma mul_nan_l (y : number) : mul NaN y = NaN.
Proof. reflexivity. Qed.

Lemma mul_nan_r (x : number) : mul x NaN = NaN.
Proof. destruct x as [[]|[]| |[]]; reflexivity. Qed.

Lemma div_nan_l (y : number) : div NaN y = NaN.
Proof. reflexivity. Qed.

Lemma shr_1_nonneg (mrs : shr_record) :
  (0 <= shr_m mrs)%Z -> (0 <= shr_m (shr_1 mrs))%Z.
Proof.
  destruct mrs as [m r s]; simpl; intros Hm.
  destruct m as [|p|p]; [simpl; lia | | lia].
  destruct p; simpl; lia.
Qed.

Lemma iter_pos_preserves {A} (P : A -> Prop) (f : A -> A) :
  (forall x, P x -> P (f x)) ->
  forall n x, P x -> P (iter_pos f n x).
Proof.
  intros Hf n; induction n as [n IH | n IH |]; intros x Hx; simpl; auto.
Qed.

Lemma shr_fexp_nonneg (m e : Z) (l : location) :
  (0 <= m)%Z -> (0 <= shr_m (fst (shr_fexp prec emax m e l)))%Z.
Proof.
  intros Hm; unfold shr_fexp, shr.
  assert (H0 : (0 <= shr_m (shr_record_of_loc m l))%Z)
    by (destruct l as [|[]]; exact Hm).
  destruct (fexp prec emax (Zdigits2 m + e) - e)%Z; simpl; auto.
  apply (iter_pos_preserves (fun mrs => (0 <= shr_m mrs)%Z)); auto.
  exact shr_1_nonneg.
Qed.

Lemma round_nearest_even_nonneg (m : Z) (l : location) :
  (0 <= m)%Z -> (0 <= round_nearest_even m l)%Z.
Proof.
  intros Hm; destruct l as [|[]]; simpl; try lia.
  destruct (Z.even m); lia.
Qed.

(** Rounding a non-negative significand with a clear sign gives +0, a
    positive finite value or +Infinity. *)
Lemma binary_round_aux_sign_clear (mx ex : Z) (lx : location) :
  (0 <= mx)%Z ->
  sign_clear (binary_round_aux prec emax false mx ex lx) = true.
Proof.
  intros Hm; unfold binary_round_aux.
  pose proof (shr_fexp_nonneg mx ex lx Hm) as H1.
  destruct (shr_fexp prec emax mx ex lx) as [mrs' e']; simpl in H1.
  pose proof (round_nearest_even_nonneg _ (loc_of_shr_record mrs') H1) as H2.
  pose proof (shr_fexp_nonneg _ e' loc_Exact H2) as H3.
  destruct (shr_fexp prec emax
              (round_nearest_even (shr_m mrs') (loc_of_shr_record mrs'))
              e' loc_Exact) as [mrs'' e'']; simpl in H3.
  destruct (shr_m mrs'') as [|p|p]; [reflexivity | | lia].
  destruct (e'' <=? emax - prec)%Z; reflexivity.
Qed.

Lemma binary_round_sign_clear (m : positive) (e : Z) :
  sign_clear (binary_round prec emax false m e) = true.
Proof.
  unfold binary_round.
  destruct (shl_align m e (fexp prec emax (Z.pos (digits2_pos m) + e)))
    as [mz ez].
  apply binary_round_aux_sign_clear; lia.
Qed.

Lemma of_Z_sign_clear (z : Z) :
  (0 <= z)%Z -> sign_clear (of_Z z) = true.
Proof.
  intros Hz; unfold of_Z, of_Z_signed, binary_normalize.
  destruct z as [|p|p]; [reflexivity | apply binary_round_sign_clear | lia].
Qed.

Lemma add_sign_clear (x y : number) :
  sign_clear x = true -> sign_clear y = true -> sign_clear (add x y) = true.
Proof.
  destruct x as [[]|[]| |[] mx ex]; try discriminate;
    destruct y as [[]|[]| |[] my ey]; try discriminate; intros _ _;
    try reflexivity.
  unfold add, SFadd, binary_normalize, cond_Zopp.
  simpl Z.add. apply binary_round_sign_clear.
Qed.

Lemma mul_sign_clear (x y : number) :
  sign_clear x = true -> sign_clear y = true ->
  is_finite x = true -> is_finite y = true ->
  sign_clear (mul x y) = true.
Proof.
  destruct x as [[]|[]| |[] mx ex]; try discriminate;
    destruct y as [[]|[]| |[] my ey]; try discriminate; intros _ _ _ _;
    try reflexivity.
  unfold mul, SFmul; simpl xorb.
  apply binary_round_aux_sign_clear; lia.
Qed.

(** Division by a positive finite constant. *)
Lemma div_sign_clear (x : number) (my : positive) (ey : Z) :
  sign_clear x = true ->
  sign_clear (div x (S754_finite false my ey)) = true.
Proof.
  destruct x as [[]|[]| |[] mx ex]; try discriminate; intros _;
    try reflexivity.
  unfold div, SFdiv; simpl xorb.
  unfold SFdiv_core_binary.
  set (e' := Z.min _ _). set (m' := match (ex - ey - e')%Z with
                                    | Z0 => _ | Zpos _ => _ | Zneg _ => _ end).
  assert (Hm' : (0 <= m')%Z).
  { subst m'. destruct (ex - ey - e')%Z; try lia.
    apply Z.shiftl_nonneg; lia. }
  pose proof (Z.div_pos m' (Z.pos my) Hm' ltac:(lia)) as Hq.
  unfold Z.div in Hq.
  destruct (Z.div_eucl m' (Z.pos my)) as [q r]; simpl in Hq.
  apply binary_round_aux_sign_clear; exact Hq.
Qed.

Lemma add_zero_r (x : number) :
  sign_clear x = true -> add x (of_Z 0) = x.
Proof. destruct x as [[]|[]| |[]]; try discriminate; reflexivity. Qed.

Lemma add_zero_l (x : number) :
  sign_clear x = true -> add (of_Z 0) x = x.
Proof. destruct x as [[]|[]| |[]]; try discriminate; reflexivity. Qed.

Lemma sign_clear_nonneg (x : number) :
  sign_clear x = true -> nonneg x = true.
Proof. destruct x as [[]|[]| |[]]; try discriminate; reflexivity. Qed.

Lemma shr_exponent_le (mrs : shr_record) (e n : Z) :
  (e <= snd (shr mrs e n))%Z.
Proof. unfold shr; destruct n; simpl; lia. Qed.

Lemma binary_round_aux_exponent (sx : bool) (mx ex : Z) (lx : location) :
  match binary_round_aux prec emax sx mx ex lx with
  | S754_finite _ _ e => (ex <= e)%Z
  | _ => True
  end.
Proof.
  unfold binary_round_aux, shr_fexp.
  pose proof (shr_exponent_le (shr_record_of_loc mx lx) ex
                (fexp prec emax (Zdigits2 mx + ex) - ex)) as H1.
  destruct (shr (shr_record_of_loc mx lx) ex
              (fexp prec emax (Zdigits2 mx + ex) - ex)) as [mrs' e'].
  simpl in H1.
  set (m2 := round_nearest_even (shr_m mrs') (loc_of_shr_record mrs')).
  pose proof (shr_exponent_le (shr_record_of_loc m2 loc_Exact) e'
                (fexp prec emax (Zdigits2 m2 + e') - e')) as H2.
  destruct (shr (shr_record_of_loc m2 loc_Exact) e'
              (fexp prec emax (Zdigits2 m2 + e') - e')) as [mrs'' e''].
  simpl in H2.
  destruct (shr_m mrs''); trivial.
  destruct (e'' <=? emax - prec)%Z; trivial. lia.
Qed.

Lemma digits2_pos_shift (m p : positive) :
  digits2_pos (Pos.iter xO m p) = (digits2_pos m + p)%positive.
Proof.
  induction p as [|p IH] using Pos.peano_ind.
  - simpl. lia.
  - rewrite Pos.iter_succ. simpl. rewrite IH. lia.
Qed.

Lemma Zpos_shift (m p : positive) :
  Zpos (Pos.iter xO m p) = (Zpos m * 2 ^ Zpos p)%Z.
Proof.
  induction p as [|p IH] using Pos.peano_ind.
  - simpl. lia.
  - rewrite Pos.iter_succ, Pos2Z.inj_succ, Z.pow_succ_r by lia.
    rewrite Pos2Z.inj_xO, IH. lia.
Qed.

Lemma binary_round_not_fractional (sx : bool) (m : positive) :
  not_fractional (binary_round prec emax sx m 0).
Proof.
  unfold binary_round, shl_align.
  assert (Hf : fexp prec emax (Z.pos (digits2_pos m) + 0)
               = (Z.pos (digits2_pos m) - 53)%Z)
    by (unfold fexp, emin, prec, emax; lia).
  rewrite Hf.
  destruct (Z.pos (digits2_pos m) - 53 - 0)%Z as [|p|p] eqn:Ep.
  - pose proof (binary_round_aux_exponent sx (Z.pos m) 0 loc_Exact) as He.
    destruct (binary_round_aux prec emax sx (Z.pos m) 0 loc_Exact); simpl; trivial.
    destruct (Z.leb_spec 0 e); [discriminate | lia].
  - pose proof (binary_round_aux_exponent sx (Z.pos m) 0 loc_Exact) as He.
    destruct (binary_round_aux prec emax sx (Z.pos m) 0 loc_Exact); simpl; trivial.
    destruct (Z.leb_spec 0 e); [discriminate | lia].
  - assert (Hd : Z.pos (digits2_pos m) = (53 - Z.pos p)%Z) by lia.
    assert (Hdig : Zdigits2 (Z.pos (Pos.iter xO m p)) = 53%Z)
      by (simpl Zdigits2; rewrite digits2_pos_shift, Pos2Z.inj_add; lia).
    unfold binary_round_aux, shr_fexp.
    change (PosDef.Pos.iter xO m p) with (Pos.iter xO m p).
    rewrite Hdig.
    match goal with
    | |- context [shr _ _ ?n] =>
        assert (Hn : n = 0%Z) by (unfold fexp, emin, prec, emax; lia);
        rewrite Hn
    end.
    cbn [shr shr_m shr_record_of_loc loc_of_shr_record round_nearest_even].
    rewrite Hdig, Hn.
    cbn [shr shr_m shr_record_of_loc].
    match goal with
    | |- context [if ?b then _ else _] => destruct b
    end; [|exact I].
    match goal with
    | |- not_fractional (S754_finite _ _ ?e) =>
        assert (He : e = Z.neg p) by lia; rewrite He
    end.
    unfold not_fractional, integral_magnitude.
    cbn [Z.leb Z.compare Z.opp].
    rewrite Zpos_shift, Z.mod_mul by lia. discriminate.
Qed.

Lemma of_Z_signed_not_fractional (z : Z) (s : bool) :
  not_fractional (of_Z_signed z s).
Proof.
  unfold of_Z_signed, binary_normalize.
  destruct z; [exact I | apply binary_round_not_fractional ..].
Qed.

(** [Math.round] never returns a fractional value: [NumberToString] is only
    applied to values it renders. *)
Lemma MathRound_not_fractional (x : number) : not_fractional (MathRound x).
Proof.
  destruct x as [s|s| |s m e]; simpl; trivial.
  destruct (Z.leb_spec 0 e) as [He|He].
  - simpl. destruct (Z.leb_spec 0 e); [discriminate | lia].
  - apply of_Z_signed_not_fractional.
Qed.

(* ================================================================== *)
(** * Score and metrics *)
(* ================================================================== *)

Lemma truthy_value_get (d : QualityInfo) (a : Attr) (s : jsstring) :
  get d a = Some s -> truthy s = true -> truthy_value d a = Some s.
Proof. unfold truthy_value; intros -> ->; reflexivity. Qed.

Lemma truthy_value_none (d : QualityInfo) (a : Attr) :
  get d a = None -> truthy_value d a = None.
Proof. unfold truthy_value; intros ->; reflexivity. Qed.

Lemma parseInt_not_nan_truthy (s : jsstring) :
  is_nan (parseInt s) = false -> truthy s = true.
Proof. destruct s; [discriminate | reflexivity]. Qed.

Lemma reads_natural_facts (s : jsstring) :
  reads_natural s ->
  truthy s = true /\ sign_clear (parseInt s) = true /\
  is_finite (parseInt s) = true.
Proof.
  intros [[m Hm] Hfin]; repeat split; trivial.
  - destruct s; [discriminate Hm | reflexivity].
  - unfold parseInt; rewrite Hm.
    apply of_Z_sign_clear; lia.
Qed.

Lemma div_1000_sign_clear (x : number) :
  sign_clear x = true -> sign_clear (div x (of_Z 1000)) = true.
Proof. apply div_sign_clear. Qed.

Lemma div_10_sign_clear (x : number) :
  sign_clear x = true -> sign_clear (div x (of_Z 10)) = true.
Proof. apply div_sign_clear. Qed.

(** Decides the hypotheses on a concrete descriptor. *)
Ltac numeric_cases :=
  let a := fresh "a" in let s := fresh "s" in
  let Ha := fresh "Ha" in let Hs := fresh "Hs" in
  intros a s Ha Hs; simpl in Ha;
  repeat (destruct Ha as [Ha | Ha]; [subst a | ]); try contradiction;
  vm_compute in Hs; try discriminate Hs;
  injection Hs as <-.

Example negative_bitrate_score :
  getQualityScore [(maxVideoBitrate, Some (lit "-1000"))] = of_Z (-1).
Proof. vm_compute. reflexivity. Qed.

Example unparseable_bitrate_score :
  getQualityScore [(maxVideoBitrate, Some (lit "abc"));
                   (audioBitrate, Some (lit "1280"))] = NaN
  /\ getQualityScore [(audioBitrate, Some (lit "1280"))] = of_Z 128.
Proof. split; vm_compute; reflexivity. Qed.

(** A width beyond the range of binary64 reads as Infinity, and Infinity
    times 0 is NaN: the reason for the finiteness condition of
    [reads_natural]. *)
Example overflowing_width_score :
  getQualityScore
    [(maxWidth, Some (49%N :: repeat 48%N 309)); (maxHeight, Some (lit "0"))]
  = NaN.
Proof. vm_compute. reflexivity. Qed.

(** C2, as stated, fails: with [maxVideoBitrate: 'abc'] and
    [audioBitrate: '1280'] the score is NaN, not the 128 that the audio
    term alone gives. *)
Lemma zero_substitution_fails : ~ zero_substitution.
Proof.
  intros Hz.
  specialize (Hz [(maxVideoBitrate, Some (lit "abc"));
                  (audioBitrate, Some (lit "1280"))]
                 maxVideoBitrate (lit "abc")).
  vm_compute in Hz.
  specialize (Hz (or_introl eq_refl) eq_refl eq_refl); discriminate Hz.
Qed.

(** C2, amended. A present numeric attribute whose non-empty value does not
    parse makes its term NaN, and NaN is absorbing in the sum: the score
    (also the one inside the metrics) is NaN, and the size estimate is NaN
    when the attribute is the video bitrate. The resolution term is only
    computed when width and height are both non-empty. Nothing is raised:
    both operations are total functions, and the description is the one
    [getQualityDescription] gives. *)
Theorem unparseable_attribute_gives_NaN `{Host} (d : QualityInfo) :
  (forall s, get d maxVideoBitrate = Some s -> truthy s = true ->
             parseInt s = NaN ->
             getQualityScore d = NaN /\
             estimatedSize (getQualityMetrics d) = NaN) /\
  (forall w h, get d maxWidth = Some w -> get d maxHeight = Some h ->
               truthy w = true -> truthy h = true ->
               parseInt w = NaN \/ parseInt h = NaN ->
               getQualityScore d = NaN) /\
  (forall s, get d audioBitrate = Some s -> truthy s = true ->
             parseInt s = NaN -> getQualityScore d = NaN) /\
  score (getQualityMetrics d) = getQualityScore d /\
  description (getQualityMetrics d) = getQualityDescription d.
Proof.
  repeat split.
  - unfold getQualityScore.
    rewrite (truthy_value_get _ _ _ H0 H1), H2, div_nan_l, add_nan_r.
    destruct (truthy_value d maxWidth), (truthy_value d maxHeight),
      (truthy_value d audioBitrate); rewrite ?add_nan_l; reflexivity.
  - unfold getQualityMetrics; simpl.
    rewrite (truthy_value_get _ _ _ H0 H1), H2; reflexivity.
  - intros w h Hw Hh Tw Th Hnan. unfold getQualityScore.
    rewrite (truthy_value_get _ _ _ Hw Tw), (truthy_value_get _ _ _ Hh Th).
    assert (Hmul : mul (parseInt w) (parseInt h) = NaN)
      by (destruct Hnan as [-> | ->]; [apply mul_nan_l | apply mul_nan_r]).
    rewrite Hmul, div_nan_l, add_nan_r.
    destruct (truthy_value d audioBitrate); rewrite ?add_nan_l; reflexivity.
  - intros s Hs Ts Hnan. unfold getQualityScore.
    rewrite (truthy_value_get _ _ _ Hs Ts), Hnan, div_nan_l, add_nan_r.
    reflexivity.
Qed.

Lemma unparseable_attribute_gives_NaN_witness :
  getQualityScore [(maxVideoBitrate, Some (lit "abc"));
                   (audioBitrate, Some (lit "1280"))] = NaN /\
  estimatedSize (@getQualityMetrics SampleHost.host
                   [(maxVideoBitrate, Some (lit "abc"));
                    (audioBitrate, Some (lit "1280"))]) = NaN.
Proof.
  exact (proj1 (@unparseable_attribute_gives_NaN SampleHost.host
                  [(maxVideoBitrate, Some (lit "abc"));
                   (audioBitrate, Some (lit "1280"))])
               (lit "abc") eq_refl eq_refl eq_refl).
Defined.

(** C7, as stated, fails: a negative integer parses, and the score is
    negative. *)
Lemma negative_score_counterexample :
  ~ (forall d, parses_as_integers d -> nonneg (getQualityScore d) = true).
Proof.
  intros Hc.
  specialize (Hc [(maxVideoBitrate, Some (lit "-1000"))]).
  rewrite negative_bitrate_score in Hc.
  assert (Hp : parses_as_integers [(maxVideoBitrate, Some (lit "-1000"))])
    by (numeric_cases; vm_compute; discriminate).
  specialize (Hc Hp); vm_compute in Hc; discriminate Hc.
Qed.

(** Without minus signs and overflow the score is exactly the formula, and
    non-negative. *)
Lemma score_exact_nonneg (d : QualityInfo) :
  numeric_attrs_natural d ->
  getQualityScore d = score_formula d /\
  nonneg (getQualityScore d) = true.
Proof.
  intros Hd.
  assert (Hterm : forall a, In a numeric_attrs ->
            match get d a with
            | Some s => truthy_value d a = Some s /\
                        sign_clear (parseInt s) = true /\
                        is_finite (parseInt s) = true
            | None => truthy_value d a = None
            end).
  { intros a Ha. destruct (get d a) as [s|] eqn:Hs.
    - destruct (reads_natural_facts _ (Hd a s Ha Hs)) as (Ht & Hc & Hf).
      auto using truthy_value_get.
    - auto using truthy_value_none. }
  pose proof (Hterm maxVideoBitrate ltac:(simpl; auto)) as Hb.
  pose proof (Hterm maxWidth ltac:(simpl; auto)) as Hw.
  pose proof (Hterm maxHeight ltac:(simpl; auto)) as Hh.
  pose proof (Hterm audioBitrate ltac:(simpl; auto 6)) as Ha.
  clear Hterm.
  assert (H1 : sign_clear (term_bitrate d) = true).
  { unfold term_bitrate. destruct (get d maxVideoBitrate); [|reflexivity].
    apply div_1000_sign_clear, Hb. }
  assert (H2 : sign_clear (term_pixels d) = true).
  { unfold term_pixels.
    destruct (get d maxWidth); [|reflexivity].
    destruct (get d maxHeight); [|reflexivity].
    apply div_1000_sign_clear, mul_sign_clear; tauto. }
  assert (H3 : sign_clear (term_audio d) = true).
  { unfold term_audio. destruct (get d audioBitrate); [|reflexivity].
    apply div_10_sign_clear, Ha. }
  assert (Heq : getQualityScore d = score_formula d).
  { unfold getQualityScore, score_formula.
    assert (E1 : match truthy_value d maxVideoBitrate with
                 | Some b => add (of_Z 0) (div (parseInt b) (of_Z 1000))
                 | None => of_Z 0
                 end = term_bitrate d).
    { revert H1. unfold term_bitrate.
      destruct (get d maxVideoBitrate).
      - destruct Hb as (-> & _); apply add_zero_l.
      - rewrite Hb; reflexivity. }
    rewrite E1; clear E1.
    assert (E2 : match truthy_value d maxWidth, truthy_value d maxHeight with
                 | Some w, Some h =>
                     add (term_bitrate d)
                       (div (mul (parseInt w) (parseInt h)) (of_Z 1000))
                 | _, _ => term_bitrate d
                 end = add (term_bitrate d) (term_pixels d)).
    { unfold term_pixels.
      destruct (get d maxWidth).
      - destruct Hw as (-> & _).
        destruct (get d maxHeight).
        + destruct Hh as (-> & _); reflexivity.
        + rewrite Hh, add_zero_r; trivial.
      - rewrite Hw, add_zero_r; trivial. }
    rewrite E2; clear E2.
    unfold term_audio.
    destruct (get d audioBitrate).
    - destruct Ha as (-> & _); reflexivity.
    - rewrite Ha, add_zero_r; auto using add_sign_clear. }
  split; [exact Heq|].
  rewrite Heq. apply sign_clear_nonneg.
  unfold score_formula; auto using add_sign_clear.
Qed.

Lemma parses_truthy (s : jsstring) : parsed_Z s <> None -> truthy s = true.
Proof. destruct s; [intros Hn; contradiction Hn; reflexivity | reflexivity]. Qed.

(** One accumulation step against one summand of the formula. *)
Lemma same_value_zero_step (c f : number) (t : option number) :
  same_value_zero c f ->
  same_value_zero
    (match t with Some x => add c x | None => c end)
    (add f (match t with Some x => x | None => of_Z 0 end)).
Proof.
  intros [-> | [Hc Hf]].
  - destruct t as [x|]; [left; reflexivity|].
    destruct f as [[]|[]| |[]]; (left; reflexivity) || (right; split; reflexivity).
  - destruct c as [sc| | |]; try discriminate Hc.
    destruct f as [sf| | |]; try discriminate Hf.
    destruct t as [x|].
    + destruct sc, sf, x as [[]|[]| |[]];
        (left; reflexivity) || (right; split; reflexivity).
    + destruct sc, sf; (left; reflexivity) || (right; split; reflexivity).
Qed.

Lemma same_value_zero_start (t : option number) :
  same_value_zero
    (match t with Some x => add (of_Z 0) x | None => of_Z 0 end)
    (match t with Some x => x | None => of_Z 0 end).
Proof.
  destruct t as [x|]; [|left; reflexivity].
  destruct x as [[]|[]| |[]];
    (left; reflexivity) || (right; split; reflexivity).
Qed.

(** The score is the formula up to the sign of zero, as soon as the
    attributes that are present are non-empty. *)
Lemma score_same_value_zero (d : QualityInfo) :
  parses_as_integers d ->
  same_value_zero (getQualityScore d) (score_formula d).
Proof.
  intros Hd.
  assert (Ht : forall a, In a numeric_attrs -> truthy_value d a = get d a).
  { intros a Ha. unfold truthy_value. destruct (get d a) as [s|] eqn:E; trivial.
    rewrite (parses_truthy s (Hd a s Ha E)); reflexivity. }
  unfold getQualityScore, score_formula, term_bitrate, term_pixels, term_audio.
  rewrite !Ht by (simpl; auto 6).
  pose proof (same_value_zero_start
                (option_map (fun b => div (parseInt b) (of_Z 1000))
                            (get d maxVideoBitrate))) as H1.
  pose proof (same_value_zero_step _ _
                (match get d maxWidth, get d maxHeight with
                 | Some w, Some h =>
                     Some (div (mul (parseInt w) (parseInt h)) (of_Z 1000))
                 | _, _ => None
                 end) H1) as H2.
  pose proof (same_value_zero_step _ _
                (option_map (fun a => div (parseInt a) (of_Z 10))
                            (get d audioBitrate)) H2) as H3.
  clear H1 H2.
  destruct (get d maxVideoBitrate), (get d maxWidth), (get d maxHeight),
    (get d audioBitrate); exact H3.
Qed.

(** C7, amended: when every present numeric attribute parses as an
    integer, the score is the sum of the three terms of section 4.4 in
    binary64 arithmetic, each term 0 when its attribute is absent (the
    resolution term as soon as width or height is), up to the sign of a
    zero. When moreover these integers have no minus sign and a finite
    Number value, the score is exactly that sum and it is non-negative. On
    the scenario of section 8 it is the Number 10073.6. *)
Theorem score_formula_nonneg (d : QualityInfo) :
  parses_as_integers d ->
  same_value_zero (getQualityScore d) (score_formula d) /\
  (numeric_attrs_natural d ->
   getQualityScore d = score_formula d /\
   nonneg (getQualityScore d) = true) /\
  (get d maxVideoBitrate = Some (lit "8000000") ->
   get d maxWidth = Some (lit "1920") ->
   get d maxHeight = Some (lit "1080") ->
   get d audioBitrate = None ->
   getQualityScore d = div (of_Z 100736) (of_Z 10)).
Proof.
  intros Hp. split; [apply score_same_value_zero, Hp | split].
  - intros Hd. destruct (score_exact_nonneg d Hd) as [Heq Hpos]. auto.
  - intros Eb Ew Eh Ea.
    unfold getQualityScore.
    rewrite (truthy_value_get _ _ _ Eb eq_refl),
      (truthy_value_get _ _ _ Ew eq_refl),
      (truthy_value_get _ _ _ Eh eq_refl), (truthy_value_none _ _ Ea).
    vm_compute. reflexivity.
Qed.

Lemma score_formula_nonneg_witness :
  parses_as_integers scenario /\
  numeric_attrs_natural scenario /\
  getQualityScore scenario = div (of_Z 100736) (of_Z 10) /\
  nonneg (getQualityScore scenario) = true.
Proof.
  assert (Hp : parses_as_integers scenario)
    by (numeric_cases; vm_compute; discriminate).
  assert (Hn : numeric_attrs_natural scenario).
  { numeric_cases; (split; [eexists; vm_compute; reflexivity
                           | vm_compute; reflexivity]). }
  destruct (score_formula_nonneg scenario Hp) as (_ & Hnat & Hval).
  split; [exact Hp | split; [exact Hn | split]].
  - apply Hval; reflexivity.
  - exact (proj2 (Hnat Hn)).
Defined.

(** C8: the size estimate is 0 when the video bitrate is absent, it is
    [(bitrate / 1000) * 7200 * 1000 / 8] in binary64 arithmetic when the
    bitrate is present and parses as an integer, and 7,200,000,000 for the
    bitrate 8000000. *)
Theorem estimatedSize_spec `{Host} (d : QualityInfo) :
  (get d maxVideoBitrate = None ->
   estimatedSize (getQualityMetrics d) = of_Z 0) /\
  (forall s, get d maxVideoBitrate = Some s ->
             is_nan (parseInt s) = false ->
             estimatedSize (getQualityMetrics d) = size_formula (parseInt s)) /\
  (get d maxVideoBitrate = Some (lit "8000000") ->
   estimatedSize (getQualityMetrics d) = of_Z 7200000000).
Proof.
  unfold getQualityMetrics; simpl; repeat split.
  - intros E; rewrite (truthy_value_none _ _ E); reflexivity.
  - intros s E Hs.
    rewrite (truthy_value_get _ _ _ E (parseInt_not_nan_truthy _ Hs)).
    reflexivity.
  - intros E; rewrite (truthy_value_get _ _ _ E eq_refl).
    vm_compute; reflexivity.
Qed.

Lemma estimatedSize_spec_witness :
  estimatedSize (@getQualityMetrics SampleHost.host scenario)
  = of_Z 7200000000
  /\ estimatedSize (@getQualityMetrics SampleHost.host []) = of_Z 0.
Proof.
  split.
  - exact (proj2 (proj2 (@estimatedSize_spec SampleHost.host scenario))
                 eq_refl).
  - exact (proj1 (@estimatedSize_spec SampleHost.host []) eq_refl).
Defined.

(* ================================================================== *)
(** * Objects *)
(* ================================================================== *)

Lemma Attr_beq_eq (a b : Attr) : Attr_beq a b = true <-> a = b.
Proof.
  split; [apply internal_Attr_dec_bl | apply internal_Attr_dec_lb].
Qed.

Lemma Attr_beq_refl (a : Attr) : Attr_beq a a = true.
Proof. apply Attr_beq_eq; reflexivity. Qed.

Lemma Attr_beq_neq (a b : Attr) : a <> b -> Attr_beq a b = false.
Proof.
  intros Hn; destruct (Attr_beq a b) eqn:E; trivial.
  apply Attr_beq_eq in E; contradiction.
Qed.

Lemma existsb_Attr_beq (a : Attr) (l : list Attr) :
  existsb (Attr_beq a) l = true <-> In a l.
Proof.
  rewrite existsb_exists; split.
  - intros (x & Hx & E); apply Attr_beq_eq in E; subst; exact Hx.
  - intros Hin; exists a; auto using Attr_beq_refl.
Qed.

Lemma distinct_NoDup (l : list Attr) : distinct l = true -> NoDup l.
Proof.
  induction l as [|a l IH]; simpl; intros Hd; constructor.
  - apply andb_prop in Hd as [Hd _].
    intros Hin; apply existsb_Attr_beq in Hin; rewrite Hin in Hd.
    discriminate Hd.
  - apply IH; apply andb_prop in Hd as [_ Hd]; exact Hd.
Qed.

Lemma get_not_in (o : QualityInfo) (a : Attr) :
  ~ In a (keys o) -> get o a = None.
Proof.
  induction o as [|[k v] o IH]; simpl; intros Hn; trivial.
  rewrite Attr_beq_neq by tauto. apply IH; tauto.
Qed.

Lemma own_property_not_in (o : QualityInfo) (a : Attr) :
  own_property o a = None <-> ~ In a (keys o).
Proof.
  induction o as [|[k v] o IH]; simpl; [tauto|].
  destruct (Attr_beq k a) eqn:E.
  - apply Attr_beq_eq in E; split; [discriminate | tauto].
  - rewrite IH; split; [|tauto].
    intros Hn [Hk | Hin]; [|tauto].
    subst k; rewrite Attr_beq_refl in E; discriminate E.
Qed.

Lemma delete_not_in (o : QualityInfo) (a : Attr) :
  ~ In a (keys o) -> delete o a = o.
Proof.
  induction o as [|[k v] o IH]; simpl; intros Hn; trivial.
  rewrite Attr_beq_neq by tauto. f_equal; apply IH; tauto.
Qed.

Lemma get_app_not_in (o o' : QualityInfo) (a : Attr) :
  ~ In a (keys o) -> get (o ++ o') a = get o' a.
Proof.
  induction o as [|[k v] o IH]; simpl; intros Hn; trivial.
  rewrite Attr_beq_neq by tauto. apply IH; tauto.
Qed.

Lemma delete_app_not_in (o o' : QualityInfo) (a : Attr) :
  ~ In a (keys o) -> delete (o ++ o') a = o ++ delete o' a.
Proof.
  induction o as [|[k v] o IH]; simpl; intros Hn; trivial.
  rewrite Attr_beq_neq by tauto. f_equal; apply IH; tauto.
Qed.

(** The loop of lines 59-63 keeps exactly the entries that hold a string. *)
Lemma remove_undefined_loop (done todo : QualityInfo) :
  NoDup (keys (done ++ todo)) ->
  forallb defined done = true ->
  fold_left
    (fun qualityInfo key =>
       match get qualityInfo key with
       | None => delete qualityInfo key
       | Some _ => qualityInfo
       end)
    (keys todo) (done ++ todo)
  = done ++ filter defined todo.
Proof.
  revert done; induction todo as [|[k v] todo IH]; intros done Hnd Hdone.
  - reflexivity.
  - assert (Hk : ~ In k (keys done)).
    { unfold keys in *. rewrite map_app in Hnd. simpl in Hnd.
      apply NoDup_remove_2 in Hnd. rewrite in_app_iff in Hnd. tauto. }
    simpl fold_left. rewrite (get_app_not_in _ _ _ Hk). simpl get.
    rewrite Attr_beq_refl.
    destruct v as [s|].
    + change (done ++ (k, Some s) :: todo)
        with (done ++ [(k, Some s)] ++ todo).
      rewrite app_assoc, IH.
      * rewrite <- app_assoc; reflexivity.
      * rewrite <- app_assoc; exact Hnd.
      * rewrite forallb_app, Hdone; reflexivity.
    + rewrite (delete_app_not_in _ _ _ Hk). simpl delete.
      rewrite Attr_beq_refl. rewrite IH; trivial.
      unfold keys in *. rewrite map_app in *. simpl in Hnd.
      apply NoDup_remove_1 in Hnd; exact Hnd.
Qed.

Lemma remove_undefined_filter (o : QualityInfo) :
  wf o -> remove_undefined o = filter defined o.
Proof.
  intros Hwf. exact (remove_undefined_loop [] o Hwf eq_refl).
Qed.

Lemma own_property_filter_defined (o : QualityInfo) (a : Attr) :
  wf o ->
  own_property (filter defined o) a = option_map Some (get o a).
Proof.
  unfold wf; induction o as [|[k v] o IH]; simpl; intros Hnd; trivial.
  inversion Hnd as [|? ? Hk Hnd']; subst.
  destruct (Attr_beq k a) eqn:E.
  - apply Attr_beq_eq in E; subst a.
    destruct v as [s|]; unfold defined; simpl.
    + rewrite Attr_beq_refl; reflexivity.
    + fold defined. rewrite IH by exact Hnd'.
      rewrite (get_not_in _ _ Hk); reflexivity.
  - destruct v as [s|]; unfold defined; simpl; fold defined.
    + rewrite E; apply IH, Hnd'.
    + apply IH, Hnd'.
Qed.

Lemma wf_filter (o : QualityInfo) (f : Attr * option jsstring -> bool) :
  wf o -> wf (filter f o).
Proof.
  unfold wf, keys; induction o as [|[k v] o IH]; simpl; intros Hnd; trivial.
  inversion Hnd as [|? ? Hk Hnd']; subst.
  destruct (f (k, v)); simpl; auto.
  constructor; auto.
  intros Hin; apply Hk.
  apply in_map_iff in Hin as (x & Hx & Hin).
  apply filter_In in Hin as [Hin _].
  apply in_map_iff; exists x; auto.
Qed.

(* ================================================================== *)
(** * Extraction *)
(* ================================================================== *)

Lemma wf_qualityInfo_literal (params : list (jsstring * jsstring)) :
  wf (qualityInfo_literal params).
Proof. apply distinct_NoDup; reflexivity. Qed.

(** What [extractQualityFromUrl] does, by the outcome of URL parsing. *)
Lemma extractQualityFromUrl_cases `{Host} (url : jsstring) :
  match URL.parse url with
  | Some params =>
      completion (extractQualityFromUrl url)
      = Normal (filter defined (qualityInfo_literal params))
  | None =>
      extractQualityFromUrl url = (invalid_url_log, Normal [])
  end.
Proof.
  unfold extractQualityFromUrl, new_URL.
  destruct (URL.parse url) as [params|]; [|reflexivity].
  cbv [ret bind try_catch logger_debug completion snd].
  rewrite remove_undefined_filter by apply wf_qualityInfo_literal.
  reflexivity.
Qed.

Lemma or_chain_two (params : list (jsstring * jsstring)) (n1 n2 : jsstring) :
  URL.get params n1 ||| URL.get params n2 ||| undefined
  = first_non_empty params [n1; n2].
Proof.
  simpl. destruct (URL.get params n1) as [[|c v]|];
    destruct (URL.get params n2) as [[|c' v']|]; reflexivity.
Qed.

Lemma or_chain_one (params : list (jsstring * jsstring)) (n : jsstring) :
  URL.get params n ||| undefined = first_non_empty params [n].
Proof. simpl. destruct (URL.get params n) as [[|c v]|]; reflexivity. Qed.

(** The literal reads every attribute under its accepted spellings. *)
Lemma qualityInfo_literal_get (params : list (jsstring * jsstring)) (a : Attr) :
  get (qualityInfo_literal params) a
  = first_non_empty params (accepted_spellings a).
Proof.
  destruct a;
    first [ exact (or_chain_two params _ _) | exact (or_chain_one params _) ].
Qed.

(** The entries of an extracted descriptor. *)
Lemma extracted_entries `{Host} (url : jsstring)
  (params : list (jsstring * jsstring)) :
  URL.parse url = Some params ->
  exists d, completion (extractQualityFromUrl url) = Normal d /\ wf d /\
            forall a, own_property d a = expected_entry params a.
Proof.
  intros Hp. pose proof (extractQualityFromUrl_cases url) as Hc.
  rewrite Hp in Hc. eexists; split; [exact Hc | split].
  - apply wf_filter, wf_qualityInfo_literal.
  - intros a. rewrite own_property_filter_defined
      by apply wf_qualityInfo_literal.
    rewrite qualityInfo_literal_get; reflexivity.
Qed.

Lemma strip_leading_incl (s : jsstring) (c : N) :
  In c (URL.strip_leading s) -> In c s.
Proof.
  induction s as [|x s IH]; simpl; trivial.
  destruct (URL.is_c0_or_space x); simpl; auto.
Qed.

Lemma preprocess_incl (s : jsstring) (c : N) :
  In c (URL.preprocess s) -> In c s.
Proof.
  unfold URL.preprocess; intros Hin.
  apply filter_In in Hin as [Hin _].
  apply in_rev, strip_leading_incl, in_rev, strip_leading_incl in Hin.
  exact Hin.
Qed.

Lemma scheme_state_colon (s buffer : jsstring) :
  URL.scheme_state s buffer <> None -> In 58%N s.
Proof.
  revert buffer; induction s as [|c s IH]; simpl; intros buffer Hs.
  - contradiction.
  - destruct (URL.is_scheme_char c); [right; eapply IH; eassumption|].
    destruct (N.eqb_spec c 58); [left; assumption | contradiction].
Qed.

(** An input without colon has no scheme. *)
Lemma no_colon_no_scheme (url : jsstring) :
  ~ In 58%N url -> URL.scan_scheme (URL.preprocess url) = None.
Proof.
  intros Hn. destruct (URL.scan_scheme (URL.preprocess url)) eqn:E; trivial.
  exfalso; apply Hn, preprocess_incl.
  unfold URL.scan_scheme in E.
  destruct (URL.preprocess url) as [|c s]; [discriminate E|].
  destruct (is_ascii_alpha c); [|discriminate E].
  right; apply (scheme_state_colon s [ascii_to_lower c]).
  rewrite E; discriminate.
Qed.

Example bare_query_extract `{Host} :
  extractQualityFromUrl (lit "maxWidth=1920&maxHeight=1080")
  = (invalid_url_log, Normal []).
Proof. reflexivity. Qed.

Example full_url_extract :
  completion (@extractQualityFromUrl SampleHost.host
                (lit "http://media/v?maxWidth=1920&maxHeight=1080"))
  = Normal [(maxWidth, Some (lit "1920")); (maxHeight, Some (lit "1080"))].
Proof. vm_compute. reflexivity. Qed.

(** C3, as stated, fails: on the bare query
    [maxWidth=1920&maxHeight=1080] no host makes the result contain
    [maxWidth]. *)
Lemma bare_query_counterexample :
  ~ exists (H : Host) (d : QualityInfo),
      completion (@extractQualityFromUrl H (lit "maxWidth=1920&maxHeight=1080"))
      = Normal d /\ In maxWidth (keys d).
Proof.
  intros (H & d & Hc & Hin).
  rewrite bare_query_extract in Hc. simpl in Hc.
  injection Hc as <-. exact Hin.
Qed.

(** C3, amended: an input without URL scheme, such as a bare query
    component or any input without colon, is not parsed; the extractor
    logs the error and returns the empty descriptor. *)
Theorem extract_without_scheme `{Host} (url : jsstring) :
  URL.scan_scheme (URL.preprocess url) = None \/ ~ In 58%N url ->
  extractQualityFromUrl url = (invalid_url_log, Normal []) /\
  completion (extractQualityFromUrl url) = Normal [].
Proof.
  intros Hs.
  assert (Hn : URL.scan_scheme (URL.preprocess url) = None)
    by (destruct Hs; auto using no_colon_no_scheme).
  assert (Hp : URL.parse url = None) by (unfold URL.parse; rewrite Hn; trivial).
  pose proof (extractQualityFromUrl_cases url) as Hc. rewrite Hp in Hc.
  rewrite Hc; split; reflexivity.
Qed.

Lemma extract_without_scheme_witness :
  completion (@extractQualityFromUrl SampleHost.host
                (lit "maxWidth=1920&maxHeight=1080")) = Normal [].
Proof.
  exact (proj2 (@extract_without_scheme SampleHost.host
                  (lit "maxWidth=1920&maxHeight=1080")
                  (or_introl eq_refl))).
Defined.

(** C4: [extractQualityFromUrl] completes normally on every input, and on
    an input that does not parse as a URL it returns the empty descriptor
    (after logging the error). *)
Theorem extractQualityFromUrl_total `{Host} (url : jsstring) :
  (exists d, completion (extractQualityFromUrl url) = Normal d) /\
  (URL.parse url = None ->
   completion (extractQualityFromUrl url) = Normal [] /\
   logged (extractQualityFromUrl url) = invalid_url_log).
Proof.
  pose proof (extractQualityFromUrl_cases url) as Hc.
  destruct (URL.parse url) as [params|].
  - split; [eexists; exact Hc | discriminate].
  - rewrite Hc; split; [eexists; reflexivity | split; reflexivity].
Qed.

Lemma extractQualityFromUrl_total_witness :
  completion (@extractQualityFromUrl SampleHost.host (lit "http://"))
  = Normal [].
Proof.
  exact (proj1 (proj2 (@extractQualityFromUrl_total SampleHost.host
                         (lit "http://")) eq_refl)).
Defined.

(** C5: in the descriptor extracted from a URL, a dual-spelling attribute
    holds the value of its lower-camel parameter when that is non-empty,
    otherwise the value of its capitalized parameter when that is
    non-empty; a stream-selection attribute holds the value of its
    lower-camel parameter when that is non-empty; otherwise the descriptor
    has no entry for the attribute. *)
Theorem extracted_attribute_spellings `{Host} (url : jsstring)
  (params : list (jsstring * jsstring)) :
  URL.parse url = Some params ->
  exists d,
    completion (extractQualityFromUrl url) = Normal d /\
    forall a,
      (group a = DualSpelling ->
       own_property d a
       = option_map Some
           (first_non_empty params [attr_name a; capitalize (attr_name a)])) /\
      (group a = StreamSelection ->
       own_property d a
       = option_map Some (first_non_empty params [attr_name a])) /\
      (first_non_empty params (accepted_spellings a) = None ->
       ~ In a (keys d)).
Proof.
  intros Hp. destruct (extracted_entries url params Hp) as (d & Hc & _ & He).
  exists d; split; [exact Hc|]. intros a.
  specialize (He a). unfold expected_entry, accepted_spellings in He.
  repeat split.
  - intros Hg; rewrite Hg in He; exact He.
  - intros Hg; rewrite Hg in He; exact He.
  - intros Hnone. apply own_property_not_in.
    unfold accepted_spellings in Hnone. rewrite He, Hnone; reflexivity.
Qed.

Lemma sample_url_parse :
  @URL.parse SampleHost.host sample_url = Some sample_params.
Proof. vm_compute. reflexivity. Qed.

Lemma extracted_attribute_spellings_witness :
  exists d,
    completion (@extractQualityFromUrl SampleHost.host sample_url) = Normal d /\
    own_property d maxWidth = Some (Some (lit "640")) /\
    own_property d audioLanguage = Some (Some (lit "eng")) /\
    ~ In maxHeight (keys d).
Proof.
  destruct (@extracted_attribute_spellings SampleHost.host sample_url
              sample_params sample_url_parse) as (d & Hc & Ha).
  exists d; split; [exact Hc|]. repeat split.
  - exact (proj1 (Ha maxWidth) eq_refl).
  - exact (proj1 (proj2 (Ha audioLanguage)) eq_refl).
  - exact (proj2 (proj2 (Ha maxHeight)) eq_refl).
Defined.

Lemma session_keys_are_session_group (a : Attr) :
  includes session_keys (attr_name a) = true <-> group a = Session.
Proof. destruct a; split; intros E; solve [reflexivity | discriminate E]. Qed.

(** C10: a session attribute is read from its capitalized parameter only
    and stored under its lower-camel name; when the query has no
    capitalized form, whatever it carries under the lower-camel spelling,
    the descriptor has no entry for the attribute; and the names the hash
    excludes are exactly the names of the three session attributes. *)
Theorem session_fields_capitalized_only `{Host} (url : jsstring)
  (params : list (jsstring * jsstring)) :
  URL.parse url = Some params ->
  exists d,
    completion (extractQualityFromUrl url) = Normal d /\
    (forall a, group a = Session ->
       own_property d a
       = option_map Some (first_non_empty params [capitalize (attr_name a)])) /\
    (forall a, group a = Session ->
       URL.get params (capitalize (attr_name a)) = None ->
       ~ In a (keys d)) /\
    (forall a, includes session_keys (attr_name a) = true <->
               group a = Session) /\
    attr_name mediaSourceId = lit "mediaSourceId" /\
    attr_name deviceId = lit "deviceId" /\
    attr_name playSessionId = lit "playSessionId".
Proof.
  intros Hp. destruct (extracted_entries url params Hp) as (d & Hc & _ & He).
  exists d; split; [exact Hc|].
  assert (Hs : forall a, group a = Session ->
             own_property d a
             = option_map Some
                 (first_non_empty params [capitalize (attr_name a)])).
  { intros a Hg. specialize (He a).
    unfold expected_entry, accepted_spellings in He.
    rewrite Hg in He; exact He. }
  repeat split; try exact Hs.
  - intros a Hg Hnone. apply own_property_not_in.
    rewrite (Hs a Hg). simpl. rewrite Hnone; reflexivity.
  - apply session_keys_are_session_group.
  - apply session_keys_are_session_group.
Qed.

Lemma session_fields_capitalized_only_witness :
  exists d,
    completion (@extractQualityFromUrl SampleHost.host sample_url) = Normal d /\
    ~ In deviceId (keys d) /\
    own_property d playSessionId = Some (Some (lit "p1")).
Proof.
  destruct (@session_fields_capitalized_only SampleHost.host sample_url
              sample_params sample_url_parse) as (d & Hc & Hs & Hn & _).
  exists d; split; [exact Hc|]. split.
  - exact (Hn deviceId eq_refl eq_refl).
  - exact (Hs playSessionId eq_refl).
Defined.

(* ================================================================== *)
(** * Comparison *)
(* ================================================================== *)

Lemma eqb_eq (s t : jsstring) : eqb s t = true <-> s = t.
Proof.
  revert t; induction s as [|c s IH]; intros [|d t]; simpl;
    try (split; [discriminate | discriminate]); [tauto|].
  rewrite andb_true_iff, N.eqb_eq, IH.
  split; [intros [-> ->]; reflexivity | intros E; injection E; auto].
Qed.

Lemma eqb_sym (s t : jsstring) : eqb s t = eqb t s.
Proof.
  destruct (eqb s t) eqn:E1, (eqb t s) eqn:E2; trivial.
  - apply eqb_eq in E1; subst. rewrite (proj2 (eqb_eq t t) eq_refl) in E2.
    discriminate E2.
  - apply eqb_eq in E2; subst. rewrite (proj2 (eqb_eq s s) eq_refl) in E1.
    discriminate E1.
Qed.

Lemma generateQualityHash_returns (d : QualityInfo) :
  completion (generateQualityHash d) = Normal (cacheKey d).
Proof. reflexivity. Qed.

(** C9: [areQualitiesEqual] returns whether the two keys are the same
    string; it is reflexive and symmetric. *)
Theorem areQualitiesEqual_spec (d1 d2 : QualityInfo) :
  completion (generateQualityHash d1) = Normal (cacheKey d1) /\
  completion (generateQualityHash d2) = Normal (cacheKey d2) /\
  completion (areQualitiesEqual d1 d2)
  = Normal (eqb (cacheKey d1) (cacheKey d2)) /\
  (eqb (cacheKey d1) (cacheKey d2) = true <-> cacheKey d1 = cacheKey d2) /\
  completion (areQualitiesEqual d1 d1) = Normal true /\
  completion (areQualitiesEqual d1 d2) = completion (areQualitiesEqual d2 d1).
Proof.
  assert (Heq : forall a b,
             completion (areQualitiesEqual a b)
             = Normal (eqb (cacheKey a) (cacheKey b))) by reflexivity.
  repeat split; try apply eqb_eq; trivial.
  - rewrite Heq. f_equal. apply eqb_eq; reflexivity.
  - rewrite !Heq, eqb_sym; reflexivity.
Qed.

(* ================================================================== *)
(** * Description *)
(* ================================================================== *)

Lemma description_of_truthy `{Host} (d : QualityInfo) :
  getQualityDescription d = description_of truthy_value d.
Proof.
  unfold getQualityDescription, description_of, segments, resolution_segment,
    bitrate_segment, video_codec_segment, audio_segment, subtitle_segment,
    suffixes, optional, whole_mbps.
  generalize (truthy_value d maxWidth) (truthy_value d maxHeight)
    (truthy_value d maxVideoBitrate) (truthy_value d videoCodec)
    (truthy_value d audioCodec) (truthy_value d audioLanguage)
    (truthy_value d audioStreamIndex) (truthy_value d subtitleStreamIndex)
    (truthy_value d subtitleLanguage).
  intros [w|] [h|] [b|] [vc|] [ac|] [al|] [ai|] [si|] [sl|];
    cbn [app]; rewrite ?app_nil_r, <- ?app_assoc; reflexivity.
Qed.

Lemma description_of_ext `{Host}
  (p q : QualityInfo -> Attr -> option jsstring) (d : QualityInfo) :
  (forall a, p d a = q d a) -> description_of p d = description_of q d.
Proof.
  intros E.
  unfold description_of, segments, resolution_segment, bitrate_segment,
    video_codec_segment, audio_segment, subtitle_segment, suffixes.
  rewrite !E; reflexivity.
Qed.

Lemma truthy_value_non_empty (d : QualityInfo) :
  values_non_empty d -> forall a, truthy_value d a = get d a.
Proof.
  intros Hd a; unfold truthy_value.
  destruct (get d a) as [s|] eqn:E; trivial.
  rewrite (Hd a s E); reflexivity.
Qed.

(** Outside the data model: on an object in which an attribute holds the
    empty string, the guards of lines 107-140 skip that attribute as they
    skip an absent one. *)
Example empty_subtitle_language `{Host} :
  getQualityDescription [(subtitleLanguage, Some [])] = lit "Unknown Quality"
  /\ description_of get [(subtitleLanguage, Some [])] = lit "Subs ()".
Proof. split; reflexivity. Qed.

Example unparseable_bitrate_description `{Host} :
  getQualityDescription [(maxVideoBitrate, Some (lit "fast"))] = lit "NaNMbps".
Proof. reflexivity. Qed.



(* ================================================================== *)
(** * The canonical form of a descriptor *)
(* ================================================================== *)

(** The order of the names is the order of the ranks. *)
Lemma attr_name_ltb (a b : Attr) :
  ltb (attr_name a) (attr_name b) = (rank a <? rank b)%N.
Proof. destruct a, b; vm_compute; reflexivity. Qed.

Lemma rank_inj (a b : Attr) : rank a = rank b -> a = b.
Proof. destruct a, b; vm_compute; intros E; solve [reflexivity | discriminate E]. Qed.

Lemma attr_name_inj (a b : Attr) : attr_name a = attr_name b -> a = b.
Proof.
  intros E. apply rank_inj.
  pose proof (attr_name_ltb a b) as H1. pose proof (attr_name_ltb b a) as H2.
  rewrite E, attr_name_ltb, N.ltb_irrefl in H1, H2.
  symmetry in H1, H2. apply N.ltb_ge in H1, H2. lia.
Qed.

Lemma all_attrs_complete (a : Attr) : In a all_attrs.
Proof. destruct a; simpl; tauto. Qed.

Lemma sort_insert_perm (k : Attr) (l : list Attr) :
  Permutation (sort_insert k l) (k :: l).
Proof.
  induction l as [|h t IH]; simpl; [reflexivity|].
  destruct (ltb (attr_name h) (attr_name k)); [|reflexivity].
  rewrite IH. apply perm_swap.
Qed.

Lemma sort_perm (l : list Attr) : Permutation (sort l) l.
Proof.
  induction l as [|a l IH]; simpl; [reflexivity|].
  rewrite sort_insert_perm, IH; reflexivity.
Qed.

Lemma sort_In (l : list Attr) (a : Attr) : In a (sort l) <-> In a l.
Proof.
  split; apply Permutation_in; [apply sort_perm | symmetry; apply sort_perm].
Qed.

Lemma sort_insert_ascending (k : Attr) (l : list Attr) :
  ascending l -> ~ In k l -> ascending (sort_insert k l).
Proof.
  unfold ascending. induction l as [|h t IH]; simpl; intros Hs Hk.
  - repeat constructor.
  - inversion Hs as [|? ? Hst Hall]; subst.
    rewrite attr_name_ltb. destruct (N.ltb_spec (rank h) (rank k)) as [Hlt|Hge].
    + constructor; [apply IH; tauto|].
      rewrite Forall_forall in *. intros x Hx.
      apply (Permutation_in _ (sort_insert_perm k t)) in Hx.
      destruct Hx as [<- | Hx]; auto.
    + assert (Hne : rank k <> rank h)
        by (intros E; apply rank_inj in E; subst; tauto).
      constructor; [exact Hs|].
      constructor; [lia|].
      rewrite Forall_forall in *. intros x Hx. specialize (Hall x Hx). lia.
Qed.

Lemma sort_ascending (l : list Attr) : NoDup l -> ascending (sort l).
Proof.
  induction l as [|a l IH]; simpl; intros Hnd.
  - constructor.
  - inversion Hnd; subst. apply sort_insert_ascending; auto.
    rewrite sort_In; assumption.
Qed.

Lemma filter_ascending (f : Attr -> bool) (l : list Attr) :
  ascending l -> ascending (filter f l).
Proof.
  unfold ascending. induction l as [|a l IH]; simpl; intros Hs; trivial.
  inversion Hs as [|? ? Hst Hall]; subst.
  destruct (f a); auto. constructor; auto.
  rewrite Forall_forall in *. intros x Hx.
  apply filter_In in Hx as [Hx _]; auto.
Qed.

(** Two ascending lists with the same elements are the same list. *)
Lemma ascending_unique (l1 l2 : list Attr) :
  ascending l1 -> ascending l2 ->
  (forall a, In a l1 <-> In a l2) -> l1 = l2.
Proof.
  unfold ascending. revert l2.
  induction l1 as [|a l1 IH]; intros [|b l2] H1 H2 Hin.
  - reflexivity.
  - exfalso; apply (Hin b); simpl; auto.
  - exfalso; apply (Hin a); simpl; auto.
  - inversion H1 as [|? ? Hs1 Ha]; inversion H2 as [|? ? Hs2 Hb]; subst.
    rewrite Forall_forall in Ha, Hb.
    assert (a = b).
    { destruct (proj1 (Hin a) (or_introl eq_refl)) as [E | Hab]; auto.
      destruct (proj2 (Hin b) (or_introl eq_refl)) as [E | Hba]; auto.
      specialize (Ha b Hba). specialize (Hb a Hab). lia. }
    subst b. f_equal. apply IH; trivial.
    intros x; split; intros Hx.
    + destruct (proj1 (Hin x) (or_intror Hx)) as [E | Hx']; trivial.
      subst x. specialize (Ha a Hx). lia.
    + destruct (proj2 (Hin x) (or_intror Hx)) as [E | Hx']; trivial.
      subst x. specialize (Hb a Hx). lia.
Qed.

Lemma set_not_in (o : QualityInfo) (k : Attr) (v : option jsstring) :
  ~ In k (keys o) -> set o k v = o ++ [(k, v)].
Proof.
  induction o as [|[k' w] o IH]; simpl; intros Hn; trivial.
  rewrite Attr_beq_neq by tauto. f_equal; apply IH; tauto.
Qed.

(** The loop of lines 81-87 on distinct keys. *)
Lemma sortedQuality_loop (d acc : QualityInfo) (ks : list Attr) :
  NoDup ks -> (forall k, In k ks -> ~ In k (keys acc)) ->
  fold_left
    (fun sortedQuality key =>
       if negb (includes session_keys (attr_name key))
       then set sortedQuality key (get d key)
       else sortedQuality)
    ks acc
  = acc ++ map (fun k => (k, get d k)) (filter hashed ks).
Proof.
  revert acc; induction ks as [|k ks IH]; intros acc Hnd Hfresh.
  - cbn [fold_left filter map]. rewrite app_nil_r; reflexivity.
  - inversion Hnd as [|? ? Hk Hnd']; subst.
    cbn [fold_left filter].
    change (negb (includes session_keys (attr_name k))) with (hashed k).
    destruct (hashed k).
    + rewrite set_not_in by (apply Hfresh; simpl; auto).
      rewrite IH; trivial.
      * cbn [map]. rewrite <- app_assoc; reflexivity.
      * intros x Hx. unfold keys. rewrite map_app, in_app_iff.
        cbn [map fst In].
        intros [Hin | [E | []]].
        -- apply (Hfresh x); simpl; auto.
        -- subst x; contradiction.
    + apply IH; trivial. intros x Hx; apply Hfresh; simpl; auto.
Qed.

Lemma sortedQuality_eq (d : QualityInfo) :
  wf d ->
  sortedQuality d
  = map (fun k => (k, get d k)) (filter hashed (sort (keys d))).
Proof.
  intros Hwf. unfold sortedQuality.
  rewrite sortedQuality_loop.
  - reflexivity.
  - apply (Permutation_NoDup (l := keys d));
      [symmetry; apply sort_perm | exact Hwf].
  - intros k _ [].
Qed.

Lemma members_pairs_of (d : QualityInfo) (l : list Attr) :
  JSON.members (named (map (fun k => (k, get d k)) l))
  = map member_text (pairs_of d l).
Proof.
  unfold pairs_of. induction l as [|a l IH]; simpl; trivial.
  destruct (get d a) as [v|]; simpl; rewrite IH; reflexivity.
Qed.

Lemma pairs_of_filter_defined (d : QualityInfo) (l : list Attr) :
  pairs_of d l
  = pairs_of d (filter (fun a => match get d a with
                                 | Some _ => true
                                 | None => false
                                 end) l).
Proof.
  unfold pairs_of. induction l as [|a l IH]; simpl; trivial.
  destruct (get d a) as [v|] eqn:E; simpl; rewrite ?E, IH; reflexivity.
Qed.

Lemma get_in_keys (d : QualityInfo) (a : Attr) :
  get d a <> None -> In a (keys d).
Proof.
  intros Hg. destruct (in_dec Attr_eq_dec a (keys d)) as [Hin | Hn]; trivial.
  rewrite get_not_in in Hg by exact Hn. contradiction.
Qed.

Lemma all_attrs_NoDup : NoDup all_attrs.
Proof. apply distinct_NoDup; reflexivity. Qed.

(** The serialized pairs depend on the values of the attributes only, not
    on the order of the keys. *)
Lemma pairs_of_sorted_keys (d : QualityInfo) :
  wf d ->
  pairs_of d (filter hashed (sort (keys d))) = canonical_pairs d.
Proof.
  intros Hwf. unfold canonical_pairs.
  rewrite (pairs_of_filter_defined d (filter hashed (sort (keys d)))).
  rewrite (pairs_of_filter_defined d (filter hashed (sort all_attrs))).
  f_equal. apply ascending_unique.
  - do 2 apply filter_ascending. apply sort_ascending, Hwf.
  - do 2 apply filter_ascending. apply sort_ascending, all_attrs_NoDup.
  - intros a. rewrite !filter_In, !sort_In.
    split; intros [[Hin Hh] Hg]; (split; [split|]); trivial.
    + apply all_attrs_complete.
    + apply get_in_keys. destruct (get d a); [discriminate | discriminate Hg].
Qed.

Lemma qualityString_canonical (d : QualityInfo) :
  wf d ->
  qualityString d
  = 123%N :: join [44%N] (map member_text (canonical_pairs d)) ++ [125%N].
Proof.
  intros Hwf. unfold qualityString, JSON.stringify.
  rewrite sortedQuality_eq, members_pairs_of, pairs_of_sorted_keys; trivial.
Qed.

Lemma hashed_group (a : Attr) : hashed a = true <-> group a <> Session.
Proof. destruct a; vm_compute; split; intros E; congruence. Qed.

Lemma pairs_of_ext (d1 d2 : QualityInfo) (l : list Attr) :
  (forall a, In a l -> get d1 a = get d2 a) -> pairs_of d1 l = pairs_of d2 l.
Proof.
  unfold pairs_of. induction l as [|a l IH]; simpl; intros E; trivial.
  rewrite (E a) by auto. f_equal. apply IH; auto.
Qed.

Lemma agree_canonical_pairs (d1 d2 : QualityInfo) :
  agree_outside_session d1 d2 -> canonical_pairs d1 = canonical_pairs d2.
Proof.
  intros Ha. apply pairs_of_ext. intros a Hin.
  apply filter_In in Hin as [_ Hh]. apply Ha, hashed_group, Hh.
Qed.

Lemma in_pairs_of (d : QualityInfo) (l : list Attr) (a : Attr) (v : jsstring) :
  In (a, v) (pairs_of d l) <-> In a l /\ get d a = Some v.
Proof.
  unfold pairs_of. rewrite in_flat_map. split.
  - intros (x & Hx & Hin). destruct (get d x) as [w|] eqn:E; [|contradiction].
    destruct Hin as [Hin | []]. injection Hin as -> ->. auto.
  - intros [Hin Hg]. exists a. rewrite Hg. simpl; auto.
Qed.

Lemma canonical_pairs_agree (d1 d2 : QualityInfo) :
  canonical_pairs d1 = canonical_pairs d2 -> agree_outside_session d1 d2.
Proof.
  intros E a Hg.
  assert (Hin : In a (filter hashed (sort all_attrs))).
  { apply filter_In; split; [apply sort_In, all_attrs_complete|].
    apply hashed_group, Hg. }
  assert (H12 : forall d d' v, canonical_pairs d = canonical_pairs d' ->
                  get d a = Some v -> get d' a = Some v).
  { intros d d' v Ec Hv.
    apply (in_pairs_of d' (filter hashed (sort all_attrs)) a v).
    unfold canonical_pairs in Ec. rewrite <- Ec.
    apply in_pairs_of; auto. }
  destruct (get d1 a) as [v|] eqn:E1.
  - symmetry; apply (H12 d1 d2 v E E1).
  - destruct (get d2 a) as [v|] eqn:E2; trivial.
    rewrite (H12 d2 d1 v (eq_sym E) E2) in E1. discriminate E1.
Qed.

(* ================================================================== *)
(** * The serialization is injective *)
(* ================================================================== *)

Ltac euclid := zify; Z.to_euclidean_division_equations; lia.

Lemma unhex_hex_digit (n : N) :
  (n < 16)%N -> unhex (JSON.hex_digit n) = Some n.
Proof.
  intros Hn. unfold JSON.hex_digit, unhex, is_ascii_digit.
  destruct (N.ltb_spec n 10).
  - replace ((48 <=? 48 + n)%N && (48 + n <=? 57)%N) with true
      by (symmetry; apply andb_true_intro; split; apply N.leb_le; lia).
    f_equal; lia.
  - replace ((48 <=? 87 + n)%N && (87 + n <=? 57)%N) with false
      by (symmetry; apply andb_false_intro2; apply N.leb_gt; lia).
    replace ((97 <=? 87 + n)%N && (87 + n <=? 102)%N) with true
      by (symmetry; apply andb_true_intro; split; apply N.leb_le; lia).
    f_equal; lia.
Qed.

Lemma hex_digits_value (c : N) :
  (c < 65536)%N ->
  (4096 * (c / 4096 mod 16) + 256 * (c / 256 mod 16)
   + 16 * (c / 16 mod 16) + c mod 16)%N = c.
Proof. intros Hc. euclid. Qed.

Lemma unquote_unicode_escape (c : N) (rest : jsstring) :
  (c < 65536)%N ->
  unquote_body (JSON.unicode_escape c ++ rest)
  = prepend c (unquote_body rest).
Proof.
  intros Hc. unfold JSON.unicode_escape.
  cbn [app unquote_body N.eqb Pos.eqb].
  rewrite !unhex_hex_digit by (apply N.mod_lt; discriminate).
  rewrite hex_digits_value by exact Hc. reflexivity.
Qed.

(** Reading back what [quote_unit] writes for one code unit. *)
Lemma unquote_quote_unit (c : N) (rest : jsstring) :
  unquote_body (JSON.quote_unit c ++ rest) = prepend c (unquote_body rest).
Proof.
  unfold JSON.quote_unit.
  destruct (N.eqb_spec c 8); [subst; reflexivity|].
  destruct (N.eqb_spec c 9); [subst; reflexivity|].
  destruct (N.eqb_spec c 10); [subst; reflexivity|].
  destruct (N.eqb_spec c 12); [subst; reflexivity|].
  destruct (N.eqb_spec c 13); [subst; reflexivity|].
  destruct (N.eqb_spec c 34); [subst; reflexivity|].
  destruct (N.eqb_spec c 92); [subst; reflexivity|].
  destruct ((c <? 32)%N || JSON.is_lead_surrogate c
            || JSON.is_trail_surrogate c) eqn:E.
  - apply unquote_unicode_escape.
    unfold JSON.is_lead_surrogate, JSON.is_trail_surrogate in E.
    apply orb_prop in E as [E | E]; [apply orb_prop in E as [E | E]|].
    + apply N.ltb_lt in E; lia.
    + apply andb_prop in E as [_ E]; apply N.leb_le in E; lia.
    + apply andb_prop in E as [_ E]; apply N.leb_le in E; lia.
  - cbn [app unquote_body].
    rewrite (proj2 (N.eqb_neq c 34)), (proj2 (N.eqb_neq c 92)) by assumption.
    reflexivity.
Qed.

Lemma unquote_surrogate (c : N) (rest : jsstring) :
  JSON.is_lead_surrogate c = true \/ JSON.is_trail_surrogate c = true ->
  unquote_body (c :: rest) = prepend c (unquote_body rest).
Proof.
  intros Hc. cbn [unquote_body].
  assert (H : (55296 <= c)%N).
  { unfold JSON.is_lead_surrogate, JSON.is_trail_surrogate in Hc.
    destruct Hc as [E | E]; apply andb_prop in E as [E _];
      apply N.leb_le in E; lia. }
  rewrite (proj2 (N.eqb_neq c 34)), (proj2 (N.eqb_neq c 92)) by lia.
  reflexivity.
Qed.

(** Reading back the body of a quoted string. *)
Lemma unquote_quote_body (s rest : jsstring) :
  unquote_body (JSON.quote_body s ++ 34%N :: rest) = Some (s, rest).
Proof.
  enough (H : (forall rest, unquote_body (JSON.quote_body s ++ 34%N :: rest)
                            = Some (s, rest)) /\
              (forall c rest,
                  unquote_body (JSON.quote_body (c :: s) ++ 34%N :: rest)
                  = Some (c :: s, rest)))
    by apply H.
  clear rest. induction s as [|d s [IH1 IH2]].
  - split; [reflexivity|]. intros c rest. cbn [JSON.quote_body].
    destruct (JSON.is_lead_surrogate c);
      rewrite ?app_nil_r, <- ?app_assoc, unquote_quote_unit; reflexivity.
  - split; [apply IH2|]. intros c rest.
    change (JSON.quote_body (c :: d :: s))
      with (if JSON.is_lead_surrogate c
            then if JSON.is_trail_surrogate d
                 then c :: d :: JSON.quote_body s
                 else JSON.quote_unit c ++ JSON.quote_body (d :: s)
            else JSON.quote_unit c ++ JSON.quote_body (d :: s)).
    destruct (JSON.is_lead_surrogate c) eqn:Ec;
      [destruct (JSON.is_trail_surrogate d) eqn:Ed|].
    + cbn [app]. rewrite (unquote_surrogate c) by auto.
      rewrite (unquote_surrogate d) by auto.
      rewrite IH1. reflexivity.
    + rewrite <- app_assoc, unquote_quote_unit, IH2. reflexivity.
    + rewrite <- app_assoc, unquote_quote_unit, IH2. reflexivity.
Qed.

Lemma read_member_text (kv : Attr * jsstring) (rest : jsstring) :
  read_member (member_text kv ++ rest)
  = Some ((attr_name (fst kv), snd kv), rest).
Proof.
  unfold member_text, JSON.quote, read_member.
  cbn [app]. rewrite <- !app_assoc. cbn [app N.eqb Pos.eqb].
  rewrite unquote_quote_body. cbn [N.eqb Pos.eqb andb].
  rewrite <- app_assoc. cbn [app].
  rewrite unquote_quote_body. reflexivity.
Qed.

(** The text after the opening brace determines the pairs. *)
Lemma members_text_inj (l1 l2 : list (Attr * jsstring)) :
  join [44%N] (map member_text l1) ++ [125%N]
  = join [44%N] (map member_text l2) ++ [125%N] ->
  l1 = l2.
Proof.
  assert (Hstart : forall kv rest, exists t, member_text kv ++ rest = 34%N :: t)
    by (intros kv rest; eexists; reflexivity).
  assert (Hjoin : forall kv l,
             join [44%N] (map member_text (kv :: l)) ++ [125%N]
             = member_text kv ++
               match l with
               | [] => [125%N]
               | _ :: _ => 44%N :: join [44%N] (map member_text l) ++ [125%N]
               end).
  { intros kv [|kv' l]; cbn [map join]; trivial.
    rewrite <- !app_assoc; reflexivity. }
  revert l2; induction l1 as [|kv1 l1 IH]; intros [|kv2 l2] E.
  - reflexivity.
  - rewrite Hjoin in E. destruct (Hstart kv2 (match l2 with
                                                | [] => [125%N]
                                                | _ :: _ => 44%N :: join [44%N] (map member_text l2) ++ [125%N]
                                                end)) as [t Ht].
    rewrite Ht in E. discriminate E.
  - rewrite Hjoin in E. destruct (Hstart kv1 (match l1 with
                                                | [] => [125%N]
                                                | _ :: _ => 44%N :: join [44%N] (map member_text l1) ++ [125%N]
                                                end)) as [t Ht].
    rewrite Ht in E. discriminate E.
  - rewrite !Hjoin in E.
    pose proof (f_equal read_member E) as Er.
    rewrite !read_member_text in Er.
    injection Er as En Ev Erest.
    assert (kv1 = kv2).
    { destruct kv1, kv2; simpl in *. apply attr_name_inj in En.
      congruence. }
    subst kv2. f_equal.
    destruct l1 as [|a1 l1], l2 as [|a2 l2]; trivial; try discriminate Erest.
    apply IH. injection Erest as Erest. exact Erest.
Qed.

Lemma qualityString_inj (d1 d2 : QualityInfo) :
  wf d1 -> wf d2 ->
  qualityString d1 = qualityString d2 ->
  canonical_pairs d1 = canonical_pairs d2.
Proof.
  intros H1 H2 E.
  rewrite (qualityString_canonical d1 H1), (qualityString_canonical d2 H2) in E.
  injection E as E. apply members_text_inj, E.
Qed.

(* ================================================================== *)
(** * The cache key *)
(* ================================================================== *)

Lemma hex_digit_is_hex (n : N) :
  (n < 16)%N -> is_hex_lower (JSON.hex_digit n) = true.
Proof.
  intros Hn. unfold JSON.hex_digit, is_hex_lower, is_ascii_digit.
  destruct (N.ltb_spec n 10).
  - apply orb_true_intro; left.
    apply andb_true_intro; split; apply N.leb_le; lia.
  - apply orb_true_intro; right.
    apply andb_true_intro; split; apply N.leb_le; lia.
Qed.

Lemma byte_high_digit (y : N) : (y mod 256 / 16 < 16)%N.
Proof. euclid. Qed.

Lemma byte_low_digit (y : N) : (y mod 256 mod 16 < 16)%N.
Proof. euclid. Qed.

(** The key is 12 lower-case hexadecimal digits. *)
Lemma cacheKey_format (d : QualityInfo) :
  List.length (cacheKey d) = 12 /\ forallb is_hex_lower (cacheKey d) = true.
Proof.
  unfold cacheKey, MD5.digest.
  generalize (MD5.process (List.length (MD5.pad (utf8 (qualityString d))))
                MD5.init (MD5.pad (utf8 (qualityString d)))).
  intros st.
  cbn [MD5.le_bytes seq map app MD5.hex flat_map firstn List.length forallb].
  split; [reflexivity|].
  rewrite !hex_digit_is_hex by (apply byte_high_digit || apply byte_low_digit).
  reflexivity.
Qed.

Example colliding_keys :
  cacheKey bitrate_22227024 = lit "450b547bd3e2" /\
  cacheKey bitrate_28262813 = lit "450b547bd3e2".
Proof. split; vm_compute; reflexivity. Qed.

Ltac keys_distinct := apply distinct_NoDup; reflexivity.

(** C1, as stated, fails: the key is a 48-bit truncation of MD5, and the
    descriptors [maxVideoBitrate: '22227024'] and
    [maxVideoBitrate: '28262813'] have the same key 450b547bd3e2. *)
Lemma truncated_key_collision :
  ~ (forall d1 d2, wf d1 -> wf d2 ->
       (cacheKey d1 = cacheKey d2 <-> agree_outside_session d1 d2)).
Proof.
  intros Hc.
  assert (H1 : wf bitrate_22227024) by keys_distinct.
  assert (H2 : wf bitrate_28262813) by keys_distinct.
  destruct colliding_keys as [E1 E2].
  pose proof (proj1 (Hc _ _ H1 H2) (eq_trans E1 (eq_sym E2))) as Ha.
  specialize (Ha maxVideoBitrate ltac:(discriminate)).
  vm_compute in Ha. discriminate Ha.
Qed.

(** C1, amended. Whatever the order in which their attributes were
    populated, two descriptors agree on every attribute other than
    [deviceId], [playSessionId] and [mediaSourceId] if and only if the
    texts that are hashed are the same; in that case the keys are the same,
    so descriptors that differ only in session fields get the same key.
    The key is what [generateQualityHash] returns, 12 lower-case
    hexadecimal digits. Descriptors that differ in another attribute have
    different texts, and different keys unless the truncated digests
    collide. *)
Theorem cacheKey_canonical (d1 d2 : QualityInfo) :
  wf d1 -> wf d2 ->
  (agree_outside_session d1 d2 <-> qualityString d1 = qualityString d2) /\
  (agree_outside_session d1 d2 -> cacheKey d1 = cacheKey d2) /\
  completion (generateQualityHash d1) = Normal (cacheKey d1) /\
  List.length (cacheKey d1) = 12 /\
  forallb is_hex_lower (cacheKey d1) = true.
Proof.
  intros H1 H2.
  assert (Hiff : agree_outside_session d1 d2 <->
                 qualityString d1 = qualityString d2).
  { split.
    - intros Ha. rewrite !qualityString_canonical by assumption.
      rewrite (agree_canonical_pairs d1 d2 Ha). reflexivity.
    - intros E. apply canonical_pairs_agree, qualityString_inj; assumption. }
  split; [exact Hiff | split; [|split; [reflexivity | apply cacheKey_format]]].
  intros Ha. unfold cacheKey. rewrite (proj1 Hiff Ha). reflexivity.
Qed.

Lemma cacheKey_canonical_witness :
  wf scenario /\ wf scenario_reordered /\
  agree_outside_session scenario scenario_reordered /\
  cacheKey scenario = cacheKey scenario_reordered.
Proof.
  assert (H1 : wf scenario) by keys_distinct.
  assert (H2 : wf scenario_reordered) by keys_distinct.
  assert (Ha : agree_outside_session scenario scenario_reordered)
    by (intros a Hg; destruct a; solve [reflexivity | contradiction Hg; reflexivity]).
  split; [exact H1 | split; [exact H2 | split; [exact Ha |]]].
  exact (proj1 (proj2 (cacheKey_canonical scenario scenario_reordered H1 H2))
               Ha).
Defined.

(* ================================================================== *)
(** * Corollaries *)
(* ================================================================== *)

Lemma get_own_property (o : QualityInfo) (a : Attr) (s : jsstring) :
  get o a = Some s -> own_property o a = Some (Some s).
Proof.
  induction o as [|[k v] o IH]; simpl; [discriminate|].
  destruct (Attr_beq k a); [intros ->; reflexivity | exact IH].
Qed.

Lemma first_non_empty_truthy (params : list (jsstring * jsstring))
  (names : list jsstring) (s : jsstring) :
  first_non_empty params names = Some s -> truthy s = true.
Proof.
  induction names as [|n names IH]; simpl; [discriminate|].
  destruct (URL.get params n) as [[|c v]|]; trivial.
  intros E; injection E as <-; reflexivity.
Qed.

(** An extracted descriptor holds no empty string. *)
Lemma extracted_values_non_empty `{Host} (url : jsstring) (d : QualityInfo) :
  completion (extractQualityFromUrl url) = Normal d -> values_non_empty d.
Proof.
  intros Hc a s Hs.
  pose proof (extractQualityFromUrl_cases url) as Hcase.
  destruct (URL.parse url) as [params|] eqn:Hp.
  - destruct (extracted_entries url params Hp) as (d' & Hc' & _ & He).
    rewrite Hc in Hc'. injection Hc' as <-.
    specialize (He a). rewrite (get_own_property _ _ _ Hs) in He.
    unfold expected_entry in He.
    destruct (first_non_empty params (accepted_spellings a)) as [v|] eqn:Ev;
      [|discriminate He].
    injection He as ->. exact (first_non_empty_truthy _ _ _ Ev).
  - rewrite Hcase in Hc. injection Hc as <-. discriminate Hs.
Qed.

(** On an extracted descriptor the description is the one of section 4.5
    with "present" read literally. *)
Corollary extracted_description `{Host} (url : jsstring) (d : QualityInfo) :
  completion (extractQualityFromUrl url) = Normal d ->
  getQualityDescription d = description_of get d.
Proof.
  intros Hc. rewrite description_of_truthy.
  apply description_of_ext, truthy_value_non_empty.
  exact (extracted_values_non_empty url d Hc).
Qed.

Lemma get_in (o : QualityInfo) (a : Attr) (v : option jsstring) :
  wf o -> In (a, v) o -> get o a = v.
Proof.
  unfold wf, keys. induction o as [|[k w] o IH]; simpl; intros Hnd Hin.
  - contradiction.
  - inversion Hnd as [|? ? Hk Hnd']; subst.
    destruct Hin as [E | Hin].
    + injection E as -> ->. rewrite Attr_beq_refl; reflexivity.
    + rewrite Attr_beq_neq; [apply IH; assumption|].
      intros ->. apply Hk. apply in_map_iff. exists (a, v); auto.
Qed.

(** Reading a property does not depend on the order of insertion. *)
Lemma get_permutation (d1 d2 : QualityInfo) (a : Attr) :
  wf d1 -> Permutation d1 d2 -> get d1 a = get d2 a.
Proof.
  intros H1 Hp.
  assert (H2 : wf d2)
    by (unfold wf, keys in *; eapply Permutation_NoDup;
        [apply Permutation_map, Hp | exact H1]).
  destruct (in_dec Attr_eq_dec a (keys d1)) as [Hin | Hn].
  - unfold keys in Hin. apply in_map_iff in Hin as ([k v] & E & Hin).
    simpl in E; subst k.
    rewrite (get_in d1 a v H1 Hin).
    symmetry; apply get_in; trivial.
    eapply Permutation_in; eassumption.
  - rewrite (get_not_in d1 a Hn). symmetry; apply get_not_in.
    intros Hin; apply Hn. unfold keys in *.
    eapply Permutation_in; [symmetry; apply Permutation_map, Hp | exact Hin].
Qed.

(** The key does not depend on the order in which the attributes were
    populated. *)
Corollary cacheKey_permutation (d1 d2 : QualityInfo) :
  wf d1 -> Permutation d1 d2 -> cacheKey d1 = cacheKey d2.
Proof.
  intros H1 Hp.
  assert (H2 : wf d2)
    by (unfold wf, keys in *; eapply Permutation_NoDup;
        [apply Permutation_map, Hp | exact H1]).
  assert (Ha : agree_outside_session d1 d2)
    by (intros a _; apply get_permutation; assumption).
  assert (E : qualityString d1 = qualityString d2).
  { rewrite !qualityString_canonical by assumption.
    rewrite (agree_canonical_pairs d1 d2 Ha). reflexivity. }
  unfold cacheKey. rewrite E. reflexivity.
Qed.

(* ================================================================== *)
(** * Further properties: extraction *)
(* ================================================================== *)

Lemma Normal_inj {A} (a b : A) : Normal a = Normal b -> a = b.
Proof. intros E; injection E; trivial. Qed.

Lemma get_filter_defined (o : QualityInfo) (a : Attr) :
  wf o -> get (filter defined o) a = get o a.
Proof.
  unfold wf, keys; induction o as [|[k v] o IH]; simpl; intros Hnd; trivial.
  inversion Hnd as [|? ? Hk Hnd']; subst.
  destruct v as [s|]; unfold defined; simpl; fold defined.
  - destruct (Attr_beq k a); [reflexivity | apply IH, Hnd'].
  - destruct (Attr_beq k a) eqn:E; [|apply IH, Hnd'].
    apply Attr_beq_eq in E; subst a. apply get_not_in.
    intros Hin. apply Hk. unfold keys in Hin.
    apply in_map_iff in Hin as (x & Hx & Hin).
    apply filter_In in Hin as [Hin _]. apply in_map_iff; exists x; auto.
Qed.

Lemma keys_filter_defined (o : QualityInfo) :
  wf o -> keys (filter defined o) = filter (holds_string o) (keys o).
Proof.
  unfold wf, keys, holds_string.
  induction o as [|[k v] o IH]; intros Hnd; trivial.
  inversion Hnd as [|? ? Hk Hnd']; subst.
  assert (Hext : filter (fun a => match get ((k, v) :: o) a with
                                  | Some _ => true | None => false end)
                        (map fst o)
                 = filter (fun a => match get o a with
                                    | Some _ => true | None => false end)
                          (map fst o)).
  { apply filter_ext_in. intros a Ha. simpl.
    rewrite Attr_beq_neq; [reflexivity|]. intros ->; contradiction. }
  cbn [filter map fst]. rewrite Hext.
  cbn [get]. rewrite Attr_beq_refl.
  destruct v as [s|]; unfold defined; cbn [snd map fst];
    rewrite <- IH by exact Hnd'; reflexivity.
Qed.

Lemma keys_qualityInfo_literal (params : list (jsstring * jsstring)) :
  keys (qualityInfo_literal params) = all_attrs.
Proof. reflexivity. Qed.

Lemma defined_entry (o : QualityInfo) (a : Attr) (v : option jsstring) :
  In (a, v) (filter defined o) -> exists s, v = Some s.
Proof.
  intros Hin. apply filter_In in Hin as [_ Hd].
  destruct v as [s|]; [eexists; reflexivity | discriminate Hd].
Qed.

(** X1: the descriptor [extractQualityFromUrl] returns has pairwise
    distinct keys, every entry holds a non-empty string (no [undefined] is
    left and no empty value is taken over), and its keys are those of the
    object literal that remain, in the order of the literal. *)
Theorem extracted_descriptor_invariants `{Host} (url : jsstring)
  (d : QualityInfo) :
  completion (extractQualityFromUrl url) = Normal d ->
  wf d /\
  (forall a v, In (a, v) d -> exists s, v = Some s /\ truthy s = true) /\
  keys d = filter (holds_string d) all_attrs.
Proof.
  intros Hc.
  pose proof (extracted_values_non_empty url d Hc) as Hne.
  pose proof (extractQualityFromUrl_cases url) as Hcase.
  destruct (URL.parse url) as [params|].
  - rewrite Hc in Hcase. apply Normal_inj in Hcase. subst d.
    pose proof (wf_qualityInfo_literal params) as Hwl.
    assert (Hwf : wf (filter defined (qualityInfo_literal params)))
      by (apply wf_filter, Hwl).
    split; [exact Hwf | split].
    + intros a v Hin. destruct (defined_entry _ a v Hin) as [s ->].
      exists s; split; trivial.
      apply (Hne a s). apply get_in; assumption.
    + rewrite keys_filter_defined, keys_qualityInfo_literal by exact Hwl.
      apply filter_ext. intros a. unfold holds_string.
      rewrite get_filter_defined by exact Hwl. reflexivity.
  - rewrite Hcase in Hc. injection Hc as <-.
    split; [constructor | split; [intros a v [] | reflexivity]].
Qed.

Lemma extracted_descriptor_invariants_witness :
  exists d,
    completion (@extractQualityFromUrl SampleHost.host sample_url) = Normal d /\
    wf d /\ keys d = filter (holds_string d) all_attrs.
Proof.
  destruct (@extracted_entries SampleHost.host sample_url sample_params
              sample_url_parse) as (d & Hc & _ & _).
  exists d. split; [exact Hc|].
  destruct (@extracted_descriptor_invariants SampleHost.host sample_url d Hc)
    as (Hwf & _ & Hk).
  split; assumption.
Defined.

Lemma first_non_empty_ext (p1 p2 : list (jsstring * jsstring))
  (names : list jsstring) :
  (forall n, In n names -> URL.get p1 n = URL.get p2 n) ->
  first_non_empty p1 names = first_non_empty p2 names.
Proof.
  induction names as [|n names IH]; simpl; intros E; trivial.
  rewrite (E n) by auto. rewrite IH by auto. reflexivity.
Qed.

(** The literal, attribute by attribute. *)
Lemma qualityInfo_literal_map (params : list (jsstring * jsstring)) :
  qualityInfo_literal params
  = map (fun a => (a, first_non_empty params (accepted_spellings a)))
        all_attrs.
Proof.
  unfold qualityInfo_literal, all_attrs. cbn [map].
  repeat (apply f_equal2;
          [apply f_equal;
           first [exact (or_chain_two params _ _)
                 | exact (or_chain_one params _)] | ]).
  reflexivity.
Qed.

Lemma qualityInfo_literal_ext (p1 p2 : list (jsstring * jsstring)) :
  (forall n, In n recognized_names -> URL.get p1 n = URL.get p2 n) ->
  qualityInfo_literal p1 = qualityInfo_literal p2.
Proof.
  intros E. rewrite !qualityInfo_literal_map.
  apply map_ext_in. intros a Ha. f_equal.
  apply first_non_empty_ext. intros n Hn. apply E.
  unfold recognized_names. apply in_flat_map. exists a; auto.
Qed.

Lemma sample_url_noisy_parse :
  @URL.parse SampleHost.host sample_url_noisy = Some sample_params_noisy.
Proof. vm_compute. reflexivity. Qed.

(** X2: the extractor reads the query only through the first value of the
    41 parameter names it asks for: two URLs whose search parameters agree
    on these names give the same descriptor and the same log, whatever
    other parameters, repetitions or parameter order they carry. *)
Theorem extraction_reads_recognized_names `{Host} (url1 url2 : jsstring)
  (p1 p2 : list (jsstring * jsstring)) :
  URL.parse url1 = Some p1 -> URL.parse url2 = Some p2 ->
  (forall n, In n recognized_names -> URL.get p1 n = URL.get p2 n) ->
  extractQualityFromUrl url1 = extractQualityFromUrl url2.
Proof.
  intros H1 H2 E. unfold extractQualityFromUrl, new_URL.
  rewrite H1, H2. cbv [ret bind try_catch].
  rewrite (qualityInfo_literal_ext p1 p2 E). reflexivity.
Qed.

Lemma extraction_reads_recognized_names_witness :
  @extractQualityFromUrl SampleHost.host sample_url
  = @extractQualityFromUrl SampleHost.host sample_url_noisy.
Proof.
  apply (@extraction_reads_recognized_names SampleHost.host
           sample_url sample_url_noisy sample_params sample_params_noisy
           sample_url_parse sample_url_noisy_parse).
  intros n Hn. vm_compute in Hn.
  repeat (destruct Hn as [<- | Hn]; [vm_compute; reflexivity|]).
  contradiction.
Defined.

(* ================================================================== *)
(** * Further properties: extraction and cache key together *)
(* ================================================================== *)

Lemma agree_same_text (d1 d2 : QualityInfo) :
  wf d1 -> wf d2 -> agree_outside_session d1 d2 ->
  qualityString d1 = qualityString d2.
Proof.
  intros H1 H2 Ha. rewrite !qualityString_canonical by assumption.
  rewrite (agree_canonical_pairs d1 d2 Ha). reflexivity.
Qed.

Lemma same_text_same_key (d1 d2 : QualityInfo) :
  qualityString d1 = qualityString d2 -> cacheKey d1 = cacheKey d2.
Proof. intros E. unfold cacheKey. rewrite E. reflexivity. Qed.

Lemma same_key_equal (d1 d2 : QualityInfo) :
  cacheKey d1 = cacheKey d2 ->
  completion (areQualitiesEqual d1 d2) = Normal true.
Proof.
  intros E.
  change (completion (areQualitiesEqual d1 d2))
    with (Normal (eqb (cacheKey d1) (cacheKey d2))).
  f_equal. apply eqb_eq, E.
Qed.

(** What an extracted descriptor reads for an attribute. *)
Lemma extracted_get `{Host} (url : jsstring)
  (params : list (jsstring * jsstring)) (d : QualityInfo) :
  URL.parse url = Some params ->
  completion (extractQualityFromUrl url) = Normal d ->
  wf d /\
  forall a, get d a = first_non_empty params (accepted_spellings a).
Proof.
  intros Hp Hc. pose proof (extractQualityFromUrl_cases url) as Hcase.
  rewrite Hp, Hc in Hcase. apply Normal_inj in Hcase. subst d.
  pose proof (wf_qualityInfo_literal params) as Hwl.
  split; [apply wf_filter, Hwl|]. intros a.
  rewrite get_filter_defined by exact Hwl. apply qualityInfo_literal_get.
Qed.

Lemma metrics_attrs_not_session (a : Attr) :
  In a metrics_attrs -> group a <> Session.
Proof.
  simpl. intros Ha.
  repeat (destruct Ha as [<- | Ha]; [discriminate|]). contradiction.
Qed.

(** The metrics read the descriptor through ten attributes only. *)
Lemma metrics_frame `{Host} (d1 d2 : QualityInfo) :
  (forall a, In a metrics_attrs -> get d1 a = get d2 a) ->
  getQualityMetrics d1 = getQualityMetrics d2.
Proof.
  intros E.
  assert (Et : forall a, In a metrics_attrs ->
                         truthy_value d1 a = truthy_value d2 a)
    by (intros a Ha; unfold truthy_value; rewrite (E a Ha); reflexivity).
  unfold getQualityMetrics, getQualityScore, getQualityDescription.
  rewrite !(Et maxWidth), !(Et maxHeight), !(Et maxVideoBitrate),
    !(Et videoCodec), !(Et audioCodec), !(Et audioLanguage),
    !(Et audioStreamIndex), !(Et subtitleStreamIndex),
    !(Et subtitleLanguage), !(Et audioBitrate) by (simpl; tauto).
  reflexivity.
Qed.

Lemma scenario_url_parse :
  @URL.parse SampleHost.host scenario_url = Some scenario_params.
Proof. vm_compute. reflexivity. Qed.

Lemma scenario_url_other_session_parse :
  @URL.parse SampleHost.host scenario_url_other_session
  = Some scenario_params_other_session.
Proof. vm_compute. reflexivity. Qed.

Lemma scenario_other_session_extract :
  completion (@extractQualityFromUrl SampleHost.host scenario_url_other_session)
  = Normal scenario_other_session.
Proof. vm_compute. reflexivity. Qed.

(** X3: two request URLs whose search parameters agree on every accepted
    spelling of every attribute outside the session group are extracted to
    descriptors with the same cache key and the same metrics, and
    [areQualitiesEqual] returns true on them: [MediaSourceId], [DeviceId]
    and [PlaySessionId] never reach the key, the score, the description or
    the size estimate. *)
Theorem session_parameters_never_reach_key `{Host} (url1 url2 : jsstring)
  (p1 p2 : list (jsstring * jsstring)) (d1 d2 : QualityInfo) :
  URL.parse url1 = Some p1 -> URL.parse url2 = Some p2 ->
  completion (extractQualityFromUrl url1) = Normal d1 ->
  completion (extractQualityFromUrl url2) = Normal d2 ->
  (forall a n, group a <> Session -> In n (accepted_spellings a) ->
               URL.get p1 n = URL.get p2 n) ->
  cacheKey d1 = cacheKey d2 /\
  completion (areQualitiesEqual d1 d2) = Normal true /\
  getQualityMetrics d1 = getQualityMetrics d2.
Proof.
  intros Hp1 Hp2 Hc1 Hc2 E.
  destruct (extracted_get url1 p1 d1 Hp1 Hc1) as [Hw1 Hg1].
  destruct (extracted_get url2 p2 d2 Hp2 Hc2) as [Hw2 Hg2].
  assert (Ha : agree_outside_session d1 d2).
  { intros a Ha. rewrite Hg1, Hg2.
    apply first_non_empty_ext. intros n Hn. apply (E a n Ha Hn). }
  assert (Hk : cacheKey d1 = cacheKey d2)
    by (apply same_text_same_key, agree_same_text; assumption).
  split; [exact Hk | split; [apply same_key_equal, Hk|]].
  apply metrics_frame. intros a Hin.
  apply Ha, metrics_attrs_not_session, Hin.
Qed.

Lemma session_parameters_never_reach_key_witness :
  cacheKey scenario = cacheKey scenario_other_session /\
  completion (areQualitiesEqual scenario scenario_other_session) = Normal true /\
  @getQualityMetrics SampleHost.host scenario
  = @getQualityMetrics SampleHost.host scenario_other_session.
Proof.
  apply (@session_parameters_never_reach_key SampleHost.host
           scenario_url scenario_url_other_session
           scenario_params scenario_params_other_session
           scenario scenario_other_session
           scenario_url_parse scenario_url_other_session_parse
           scenario_extract scenario_other_session_extract).
  intros a n Ha Hn.
  destruct a; try (contradiction Ha; reflexivity);
    vm_compute in Hn;
    repeat (destruct Hn as [<- | Hn]; [vm_compute; reflexivity|]);
    contradiction.
Defined.

(** The metrics of a descriptor in which none of the attributes they read
    holds a non-empty string. *)
Lemma metrics_nothing_usable `{Host} (d : QualityInfo) :
  (forall a, In a metrics_attrs -> truthy_value d a = None) ->
  getQualityMetrics d = empty_metrics.
Proof.
  intros Hn.
  unfold getQualityMetrics, getQualityScore, getQualityDescription.
  rewrite !Hn by (simpl; tauto). reflexivity.
Qed.

Lemma empty_descriptor_key : cacheKey [] = empty_key.
Proof. vm_compute. reflexivity. Qed.

Lemma session_only_url_parse :
  @URL.parse SampleHost.host session_only_url = Some session_only_params.
Proof. vm_compute. reflexivity. Qed.

(** X4: an input that does not parse as a URL, and a URL in which no
    accepted spelling of any attribute outside the session group has a
    non-empty value, are both extracted to a descriptor with the key of the
    empty descriptor, 99914b932bd3, and the metrics score 0, 'Unknown
    Quality', size 0: by its key a malformed request cannot be told from a
    request without quality parameters. *)
Theorem no_quality_parameter_key `{Host} (url : jsstring) (d : QualityInfo) :
  completion (extractQualityFromUrl url) = Normal d ->
  URL.parse url = None \/
  (exists p, URL.parse url = Some p /\
             forall a, group a <> Session ->
                       first_non_empty p (accepted_spellings a) = None) ->
  cacheKey d = empty_key /\
  getQualityMetrics d = empty_metrics /\
  completion (areQualitiesEqual d []) = Normal true.
Proof.
  intros Hc Hcase.
  assert (Hd : wf d /\ forall a, group a <> Session -> get d a = None).
  { destruct Hcase as [Hp | (p & Hp & Hnone)].
    - pose proof (extractQualityFromUrl_cases url) as Hx.
      rewrite Hp in Hx. rewrite Hx in Hc. apply Normal_inj in Hc. subst d.
      split; [constructor | reflexivity].
    - destruct (extracted_get url p d Hp Hc) as [Hw Hg].
      split; [exact Hw|]. intros a Ha. rewrite Hg. apply Hnone, Ha. }
  destruct Hd as [Hw Hnone].
  assert (Hk : cacheKey d = cacheKey []).
  { apply same_text_same_key, agree_same_text; [exact Hw | constructor |].
    intros a Ha. rewrite (Hnone a Ha). reflexivity. }
  split; [rewrite Hk; apply empty_descriptor_key | split].
  - apply metrics_nothing_usable. intros a Ha.
    apply truthy_value_none, Hnone, metrics_attrs_not_session, Ha.
  - apply same_key_equal, Hk.
Qed.

Lemma no_quality_parameter_key_witness :
  exists d,
    completion (@extractQualityFromUrl SampleHost.host session_only_url)
    = Normal d /\ cacheKey d = empty_key.
Proof.
  destruct (@extracted_entries SampleHost.host session_only_url
              session_only_params session_only_url_parse) as (d & Hc & _ & _).
  exists d. split; [exact Hc|].
  refine (proj1 (@no_quality_parameter_key SampleHost.host session_only_url d
                   Hc (or_intror (ex_intro _ session_only_params
                                    (conj session_only_url_parse _))))).
  intros a Ha.
  destruct a; solve [vm_compute; reflexivity | contradiction Ha; reflexivity].
Defined.

(** X5: the cleanup of lines 59-63 does not change the hashed text nor the
    key: an object with properties holding [undefined] is hashed like the
    object without them. *)
Theorem cleanup_keeps_key (o : QualityInfo) :
  wf o ->
  remove_undefined o = filter defined o /\
  qualityString (remove_undefined o) = qualityString o /\
  cacheKey (remove_undefined o) = cacheKey o.
Proof.
  intros Hw. rewrite remove_undefined_filter by exact Hw.
  assert (E : qualityString (filter defined o) = qualityString o).
  { apply agree_same_text; [apply wf_filter, Hw | exact Hw |].
    intros a _. apply get_filter_defined, Hw. }
  split; [reflexivity | split; [exact E | apply same_text_same_key, E]].
Qed.

Lemma cleanup_keeps_key_witness :
  wf with_undefined /\
  cacheKey (remove_undefined with_undefined) = cacheKey with_undefined.
Proof.
  assert (Hw : wf with_undefined) by keys_distinct.
  split; [exact Hw|].
  exact (proj2 (proj2 (cleanup_keeps_key with_undefined Hw))).
Defined.

(* ================================================================== *)
(** * Further properties: the serialized object *)
(* ================================================================== *)

Lemma keys_map_pairs (f : Attr -> option jsstring) (l : list Attr) :
  keys (map (fun k => (k, f k)) l) = l.
Proof.
  unfold keys. rewrite map_map. simpl. apply map_id.
Qed.

Lemma get_map_pairs (f : Attr -> option jsstring) (l : list Attr) (a : Attr) :
  get (map (fun k => (k, f k)) l) a
  = if existsb (Attr_beq a) l then f a else None.
Proof.
  induction l as [|k l IH]; simpl; trivial.
  destruct (Attr_beq k a) eqn:E.
  - apply Attr_beq_eq in E; subst k. rewrite Attr_beq_refl. reflexivity.
  - rewrite IH. rewrite (Attr_beq_neq a k); [reflexivity|].
    intros ->. rewrite Attr_beq_refl in E. discriminate E.
Qed.

Lemma ascending_NoDup (l : list Attr) : ascending l -> NoDup l.
Proof.
  unfold ascending. induction 1 as [|a l Hs IH Hall]; constructor; trivial.
  intros Hin. rewrite Forall_forall in Hall. specialize (Hall a Hin). lia.
Qed.

Lemma sort_ascending_id (l : list Attr) : ascending l -> sort l = l.
Proof.
  intros Hl. apply ascending_unique; trivial.
  - apply sort_ascending, ascending_NoDup, Hl.
  - apply sort_In.
Qed.

Lemma filter_all {A} (f : A -> bool) (l : list A) :
  (forall x, In x l -> f x = true) -> filter f l = l.
Proof.
  induction l as [|x l IH]; simpl; intros Hf; trivial.
  rewrite (Hf x) by auto. f_equal. apply IH; auto.
Qed.

Lemma ascending_names (l : list Attr) : ascending l -> names_ascending l.
Proof.
  unfold ascending, names_ascending.
  induction 1 as [|a l Hs IH Hall]; constructor; trivial.
  rewrite Forall_forall in *. intros b Hb.
  rewrite attr_name_ltb. apply N.ltb_lt, Hall, Hb.
Qed.

Lemma hashed_includes (a : Attr) :
  hashed a = true <-> includes session_keys (attr_name a) = false.
Proof. unfold hashed. destruct (includes _ _); simpl; split; congruence. Qed.

(** X6: the object [generateQualityHash] serializes (lines 78-87) has
    pairwise distinct keys in ascending order of their names; its keys are
    the keys of the descriptor whose name is not in the exclusion list,
    each with the value the descriptor has; and building it again from
    itself changes nothing. *)
Theorem sortedQuality_invariants (d : QualityInfo) :
  wf d ->
  wf (sortedQuality d) /\
  names_ascending (keys (sortedQuality d)) /\
  (forall a, In a (keys (sortedQuality d)) <->
             In a (keys d) /\ includes session_keys (attr_name a) = false) /\
  (forall a, includes session_keys (attr_name a) = false ->
             get (sortedQuality d) a = get d a) /\
  sortedQuality (sortedQuality d) = sortedQuality d.
Proof.
  intros Hw.
  assert (Hasc : ascending (filter hashed (sort (keys d))))
    by (apply filter_ascending, sort_ascending, Hw).
  assert (Hin : forall a, In a (filter hashed (sort (keys d))) <->
                          In a (keys d) /\
                          includes session_keys (attr_name a) = false)
    by (intros a; rewrite filter_In, sort_In, hashed_includes; tauto).
  assert (Hget : forall a, includes session_keys (attr_name a) = false ->
                   get (map (fun k => (k, get d k))
                            (filter hashed (sort (keys d)))) a = get d a).
  { intros a Ha. rewrite get_map_pairs.
    destruct (existsb (Attr_beq a) (filter hashed (sort (keys d)))) eqn:E;
      trivial.
    symmetry. apply get_not_in. intros Hk.
    assert (Hx : In a (filter hashed (sort (keys d)))) by (apply Hin; auto).
    apply existsb_Attr_beq in Hx. rewrite Hx in E. discriminate E. }
  rewrite (sortedQuality_eq d Hw).
  assert (Hw' : wf (map (fun k => (k, get d k))
                        (filter hashed (sort (keys d)))))
    by (unfold wf; rewrite keys_map_pairs; apply ascending_NoDup, Hasc).
  split; [exact Hw' | split; [|split; [|split]]].
  - rewrite keys_map_pairs. apply ascending_names, Hasc.
  - intros a. rewrite keys_map_pairs. apply Hin.
  - exact Hget.
  - rewrite (sortedQuality_eq _ Hw'), keys_map_pairs.
    rewrite (sort_ascending_id _ Hasc).
    rewrite (filter_all hashed (filter hashed (sort (keys d))))
      by (intros x Hx; apply filter_In in Hx; tauto).
    apply map_ext_in. intros a Ha. f_equal.
    apply Hget, Hin, Ha.
Qed.

Lemma sortedQuality_invariants_witness :
  wf scenario_reordered /\
  keys (sortedQuality scenario_reordered)
  = [audioCodec; audioLanguage; audioStreamIndex; maxHeight;
     maxVideoBitrate; maxWidth; videoCodec] /\
  names_ascending (keys (sortedQuality scenario_reordered)).
Proof.
  assert (Hw : wf scenario_reordered) by keys_distinct.
  split; [exact Hw | split; [reflexivity|]].
  exact (proj1 (proj2 (sortedQuality_invariants scenario_reordered Hw))).
Defined.

(* ================================================================== *)
(** * Further properties: metrics and comparison *)
(* ================================================================== *)

(** X7: descriptors that are hashed from the same text have the same
    metrics: score, description and size estimate are functions of what the
    cache key is computed from, whatever the session fields and the order
    of the attributes. *)
Theorem same_text_same_metrics `{Host} (d1 d2 : QualityInfo) :
  wf d1 -> wf d2 ->
  qualityString d1 = qualityString d2 ->
  getQualityMetrics d1 = getQualityMetrics d2 /\
  getQualityScore d1 = getQualityScore d2 /\
  getQualityDescription d1 = getQualityDescription d2.
Proof.
  intros H1 H2 E.
  pose proof (canonical_pairs_agree d1 d2 (qualityString_inj d1 d2 H1 H2 E))
    as Ha.
  assert (Hm : getQualityMetrics d1 = getQualityMetrics d2).
  { apply metrics_frame. intros a Hin.
    apply Ha, metrics_attrs_not_session, Hin. }
  split; [exact Hm | split].
  - exact (f_equal score Hm).
  - exact (f_equal description Hm).
Qed.

Lemma same_text_same_metrics_witness :
  @getQualityMetrics SampleHost.host scenario
  = @getQualityMetrics SampleHost.host scenario_reordered.
Proof.
  refine (proj1 (@same_text_same_metrics SampleHost.host
                   scenario scenario_reordered _ _ _)).
  - keys_distinct.
  - keys_distinct.
  - vm_compute. reflexivity.
Defined.

Lemma get_set (o : QualityInfo) (k a : Attr) (v : option jsstring) :
  get (set o k v) a = if Attr_beq k a then v else get o a.
Proof.
  induction o as [|[k' w] o IH]; simpl.
  - destruct (Attr_beq k a); reflexivity.
  - destruct (Attr_beq k' k) eqn:E; simpl.
    + apply Attr_beq_eq in E; subst k'.
      destruct (Attr_beq k a); reflexivity.
    + destruct (Attr_beq k' a) eqn:E'; [|exact IH].
      apply Attr_beq_eq in E'; subst k'.
      rewrite (Attr_beq_neq k a); [reflexivity|].
      intros ->. rewrite Attr_beq_refl in E. discriminate E.
Qed.

Lemma keys_set (o : QualityInfo) (k : Attr) (v : option jsstring) :
  keys (set o k v) = if existsb (Attr_beq k) (keys o) then keys o
                     else keys o ++ [k].
Proof.
  unfold keys. induction o as [|[k' w] o IH]; simpl; trivial.
  destruct (Attr_beq k' k) eqn:E; simpl.
  - apply Attr_beq_eq in E; subst k'. rewrite Attr_beq_refl. reflexivity.
  - rewrite (Attr_beq_neq k k').
    + simpl. rewrite IH. destruct (existsb (Attr_beq k) (map fst o)); reflexivity.
    + intros ->. rewrite Attr_beq_refl in E. discriminate E.
Qed.

Lemma wf_set (o : QualityInfo) (k : Attr) (v : option jsstring) :
  wf o -> wf (set o k v).
Proof.
  unfold wf. intros Hw. rewrite keys_set.
  destruct (existsb (Attr_beq k) (keys o)) eqn:E; trivial.
  apply NoDup_app; [exact Hw | repeat constructor; intros [] |].
  intros x Hx [<- | []]. apply existsb_Attr_beq in Hx.
  rewrite Hx in E. discriminate E.
Qed.

Lemma wf_delete (o : QualityInfo) (k : Attr) : wf o -> wf (delete o k).
Proof.
  unfold wf, keys. induction o as [|[k' w] o IH]; simpl; intros Hnd; trivial.
  inversion Hnd as [|? ? Hk Hnd']; subst.
  destruct (Attr_beq k' k); trivial. simpl. constructor; auto.
  intros Hin. apply Hk. clear - Hin.
  induction o as [|[k2 w2] o IH]; simpl in *; trivial.
  destruct (Attr_beq k2 k); simpl in *; tauto.
Qed.

Lemma get_delete (o : QualityInfo) (k a : Attr) :
  wf o -> get (delete o k) a = if Attr_beq k a then None else get o a.
Proof.
  unfold wf, keys. induction o as [|[k' w] o IH]; simpl; intros Hnd.
  - destruct (Attr_beq k a); reflexivity.
  - inversion Hnd as [|? ? Hk Hnd']; subst.
    destruct (Attr_beq k' k) eqn:E.
    + apply Attr_beq_eq in E; subst k'.
      destruct (Attr_beq k a) eqn:E'; trivial.
      apply Attr_beq_eq in E'; subst a. apply get_not_in, Hk.
    + simpl. destruct (Attr_beq k' a) eqn:E'; [|apply IH, Hnd'].
      apply Attr_beq_eq in E'; subst k'.
      rewrite (Attr_beq_neq k a); [reflexivity|].
      intros ->. rewrite Attr_beq_refl in E. discriminate E.
Qed.

(** X8: writing or deleting a property whose name is in the exclusion list
    never changes the key of a descriptor, while writing a string to any
    other property, unless the property already holds that string, changes
    the text that is hashed. *)
Theorem key_under_property_updates (d : QualityInfo) (a : Attr) :
  wf d ->
  (includes session_keys (attr_name a) = true ->
   forall v, cacheKey (set d a v) = cacheKey d /\
             cacheKey (delete d a) = cacheKey d) /\
  (includes session_keys (attr_name a) = false ->
   forall s, get d a <> Some s ->
             qualityString (set d a (Some s)) <> qualityString d).
Proof.
  intros Hw. split.
  - intros Hs v.
    assert (Hg : group a = Session)
      by (apply session_keys_are_session_group, Hs).
    split; apply same_text_same_key, agree_same_text;
      auto using wf_set, wf_delete.
    + intros b Hb. rewrite get_set. rewrite Attr_beq_neq; congruence.
    + intros b Hb. rewrite get_delete by exact Hw.
      rewrite Attr_beq_neq; congruence.
  - intros Hs s Hne E.
    assert (Hg : group a <> Session).
    { intros Hg. apply session_keys_are_session_group in Hg. congruence. }
    pose proof (canonical_pairs_agree _ _
                  (qualityString_inj _ _ (wf_set d a (Some s) Hw) Hw E) a Hg)
      as Ha.
    rewrite get_set, Attr_beq_refl in Ha. congruence.
Qed.

Lemma key_under_property_updates_witness :
  cacheKey (set scenario deviceId (Some (lit "other"))) = cacheKey scenario /\
  qualityString (set scenario maxWidth (Some (lit "1280")))
  <> qualityString scenario.
Proof.
  assert (Hw : wf scenario) by keys_distinct.
  split.
  - exact (proj1 (proj1 (key_under_property_updates scenario deviceId Hw)
                        eq_refl (Some (lit "other")))).
  - refine (proj2 (key_under_property_updates scenario maxWidth Hw)
                  eq_refl (lit "1280") _).
    vm_compute. discriminate.
Defined.

(** X9: [areQualitiesEqual] is transitive: with C9 it is an equivalence
    relation on descriptors, the one of having the same key. *)
Theorem areQualitiesEqual_transitive (d1 d2 d3 : QualityInfo) :
  completion (areQualitiesEqual d1 d2) = Normal true ->
  completion (areQualitiesEqual d2 d3) = Normal true ->
  completion (areQualitiesEqual d1 d3) = Normal true.
Proof.
  assert (Heq : forall a b,
             completion (areQualitiesEqual a b) = Normal true ->
             cacheKey a = cacheKey b).
  { intros a b E.
    change (completion (areQualitiesEqual a b))
      with (Normal (eqb (cacheKey a) (cacheKey b))) in E.
    apply Normal_inj in E. apply eqb_eq, E. }
  intros E12 E23. apply same_key_equal.
  rewrite (Heq _ _ E12). apply Heq, E23.
Qed.

Lemma areQualitiesEqual_transitive_witness :
  completion (areQualitiesEqual scenario scenario_other_session) = Normal true.
Proof.
  apply (areQualitiesEqual_transitive scenario scenario_reordered
           scenario_other_session); vm_compute; reflexivity.
Defined.

(* ================================================================== *)
(** * Further properties: the size estimate *)
(* ================================================================== *)

(** Rounding a non-negative significand never gives NaN. *)
Lemma binary_round_aux_not_nan (sx : bool) (mx ex : Z) (lx : location) :
  (0 <= mx)%Z -> is_nan (binary_round_aux prec emax sx mx ex lx) = false.
Proof.
  intros Hm; unfold binary_round_aux.
  pose proof (shr_fexp_nonneg mx ex lx Hm) as H1.
  destruct (shr_fexp prec emax mx ex lx) as [mrs' e']; simpl in H1.
  pose proof (round_nearest_even_nonneg _ (loc_of_shr_record mrs') H1) as H2.
  pose proof (shr_fexp_nonneg _ e' loc_Exact H2) as H3.
  destruct (shr_fexp prec emax
              (round_nearest_even (shr_m mrs') (loc_of_shr_record mrs'))
              e' loc_Exact) as [mrs'' e'']; simpl in H3.
  destruct (shr_m mrs'') as [|p|p]; [reflexivity | | lia].
  destruct (e'' <=? emax - prec)%Z; reflexivity.
Qed.

Lemma of_Z_signed_not_nan (z : Z) (s : bool) : is_nan (of_Z_signed z s) = false.
Proof.
  unfold of_Z_signed, binary_normalize.
  destruct z as [|p|p]; [reflexivity | |]; unfold binary_round;
    destruct (shl_align p 0 (fexp prec emax (Z.pos (digits2_pos p) + 0)))
      as [mz ez]; apply binary_round_aux_not_nan; lia.
Qed.

(** [parseInt] yields NaN exactly when it reads no digit. *)
Lemma parseInt_nan_iff (s : jsstring) :
  is_nan (parseInt s) = true <-> parsed_Z s = None.
Proof.
  unfold parseInt, parsed_Z.
  destruct (parse_integer s) as [[neg m]|].
  - rewrite of_Z_signed_not_nan. split; discriminate.
  - split; reflexivity.
Qed.

(** Division and multiplication by a positive finite constant keep
    numbers numbers. *)
Lemma div_const_not_nan (x : number) (my : positive) (ey : Z) :
  is_nan x = false -> is_nan (div x (S754_finite false my ey)) = false.
Proof.
  destruct x as [s|s| |s mx ex]; try discriminate; intros _; try reflexivity.
  unfold div, SFdiv, SFdiv_core_binary.
  set (e' := Z.min _ _). set (m' := match (ex - ey - e')%Z with
                                    | Z0 => _ | Zpos _ => _ | Zneg _ => _ end).
  assert (Hm' : (0 <= m')%Z).
  { subst m'. destruct (ex - ey - e')%Z; try lia.
    apply Z.shiftl_nonneg; lia. }
  pose proof (Z.div_pos m' (Z.pos my) Hm' ltac:(lia)) as Hq.
  unfold Z.div in Hq.
  destruct (Z.div_eucl m' (Z.pos my)) as [q r]; simpl in Hq.
  apply binary_round_aux_not_nan; exact Hq.
Qed.

Lemma mul_const_not_nan (x : number) (my : positive) (ey : Z) :
  is_nan x = false -> is_nan (mul x (S754_finite false my ey)) = false.
Proof.
  destruct x as [s|s| |s mx ex]; try discriminate; intros _; try reflexivity.
  unfold mul, SFmul. apply binary_round_aux_not_nan; lia.
Qed.

Lemma mul_const_sign_clear (x : number) (my : positive) (ey : Z) :
  sign_clear x = true -> sign_clear (mul x (S754_finite false my ey)) = true.
Proof.
  destruct x as [[]|[]| |[] mx ex]; try discriminate; intros _;
    try reflexivity.
  unfold mul, SFmul; simpl xorb.
  apply binary_round_aux_sign_clear; lia.
Qed.

Lemma size_formula_not_nan (x : number) :
  is_nan x = false -> is_nan (size_formula x) = false.
Proof.
  intros Hx. unfold size_formula.
  apply div_const_not_nan, mul_const_not_nan, mul_const_not_nan,
    div_const_not_nan, Hx.
Qed.

Lemma size_formula_sign_clear (x : number) :
  sign_clear x = true -> sign_clear (size_formula x) = true.
Proof.
  intros Hx. unfold size_formula.
  apply div_sign_clear, mul_const_sign_clear, mul_const_sign_clear,
    div_sign_clear, Hx.
Qed.

Lemma estimatedSize_cases `{Host} (d : QualityInfo) :
  estimatedSize (getQualityMetrics d)
  = match truthy_value d maxVideoBitrate with
    | Some b => size_formula (parseInt b)
    | None => of_Z 0
    end.
Proof. reflexivity. Qed.

(** X10: the size estimate of [getQualityMetrics] is NaN exactly when the
    video bitrate holds a non-empty string in which [parseInt] reads no
    digit; no overflow, sign or other attribute makes it NaN. When the
    bitrate reads as an integer without minus sign, the estimate is
    non-negative. *)
Theorem estimatedSize_nan_iff `{Host} (d : QualityInfo) :
  (is_nan (estimatedSize (getQualityMetrics d)) = true <->
   exists s, get d maxVideoBitrate = Some s /\ truthy s = true /\
             parsed_Z s = None) /\
  (forall s m, get d maxVideoBitrate = Some s ->
               parse_integer s = Some (false, m) ->
               nonneg (estimatedSize (getQualityMetrics d)) = true).
Proof.
  rewrite estimatedSize_cases. unfold truthy_value. split.
  - destruct (get d maxVideoBitrate) as [s|].
    + destruct (truthy s) eqn:Ht.
      * split.
        -- intros Hnan. exists s. repeat split; trivial.
           apply parseInt_nan_iff.
           destruct (is_nan (parseInt s)) eqn:E; trivial.
           rewrite (size_formula_not_nan _ E) in Hnan. discriminate Hnan.
        -- intros (s' & Es & _ & Hp). injection Es as <-.
           apply parseInt_nan_iff in Hp.
           destruct (parseInt s); try discriminate Hp. reflexivity.
      * split; [discriminate|].
        intros (s' & Es & Ht' & _). injection Es as <-. congruence.
    + split; [discriminate | intros (s' & Es & _); discriminate Es].
  - intros s m Es Hp. rewrite Es.
    assert (Ht : truthy s = true) by (destruct s; [discriminate Hp | reflexivity]).
    rewrite Ht. apply sign_clear_nonneg, size_formula_sign_clear.
    unfold parseInt. rewrite Hp. apply of_Z_sign_clear. lia.
Qed.

Lemma estimatedSize_nan_iff_witness :
  nonneg (estimatedSize (@getQualityMetrics SampleHost.host scenario)) = true.
Proof.
  apply (proj2 (@estimatedSize_nan_iff SampleHost.host scenario)
               (lit "8000000") 8000000%N); reflexivity.
Defined.
